(** * dev-events: the save-time pipelines of the Event and Booking models
      and the cached database connection

    A shallow embedding of [database/event.model.ts],
    [database/booking.model.ts] (both variants kept in the repository) and
    of [connectToDatabase], followed by the properties proved about them.

    Strings are sequences of UTF-16 code units, as in the host language.
    The few library routines the hooks call ([trim], [toLowerCase],
    [parseInt], [padStart], regular expressions, [Date]) are modelled next
    to the code that uses them. *)

From Stdlib Require Import ZArith NArith List String Ascii Bool Lia.
From stdpp Require Import base gmap list.
Import ListNotations.

(** ** Strings and characters *)

Module JS.

(** A string is its sequence of UTF-16 code units. *)
Definition jsstring := list N.

(** A literal written in Basic Latin. *)
Definition lit (s : string) : jsstring :=
  map N_of_ascii (list_ascii_of_string s).

Definition isDigit (c : N) : bool := (48 <=? c)%N && (c <=? 57)%N.
Definition isLowerAZ (c : N) : bool := (97 <=? c)%N && (c <=? 122)%N.
Definition isUpperAZ (c : N) : bool := (65 <=? c)%N && (c <=? 90)%N.
Definition charIs (c0 c : N) : bool := (c =? c0)%N.

(** [\s], and the characters [trim] removes: WhiteSpace and LineTerminator
    of the language definition. *)
Definition isWhiteSpace (c : N) : bool :=
  ((9 <=? c)%N && (c <=? 13)%N) || (c =? 32)%N || (c =? 160)%N
  || (c =? 0x1680)%N || ((0x2000 <=? c)%N && (c <=? 0x200A)%N)
  || (c =? 0x2028)%N || (c =? 0x2029)%N || (c =? 0x202F)%N
  || (c =? 0x205F)%N || (c =? 0x3000)%N || (c =? 0xFEFF)%N.

Fixpoint trimStart (s : jsstring) : jsstring :=
  match s with
  | c :: s' => if isWhiteSpace c then trimStart s' else s
  | [] => []
  end.

Definition trimEnd (s : jsstring) : jsstring := rev (trimStart (rev s)).

Definition trim (s : jsstring) : jsstring := trimEnd (trimStart s).

(** [toLowerCase], one code unit at a time.  Exact on Basic Latin.  Of the
    characters outside Basic Latin only two have a lower-case form that
    reaches into it: KELVIN SIGN (U+212A, to k) and LATIN CAPITAL LETTER I
    WITH DOT ABOVE (U+0130, to i followed by U+0307); both are mapped as
    the language does.  Every other character is left in place: its real
    lower-case form lies outside Basic Latin and is white space exactly
    when the character is, so the slug pipeline below, which deletes
    everything outside [a-z0-9\s-] in the next step, cannot tell the
    difference. *)
Definition lowerUnit (c : N) : list N :=
  if isUpperAZ c then [(c + 32)%N]
  else if (c =? 0x212A)%N then [107%N]
  else if (c =? 0x0130)%N then [105%N; 0x0307%N]
  else [c].

Definition toLowerCase (s : jsstring) : jsstring := flat_map lowerUnit s.

(** [toUpperCase] on Basic Latin; the time hook applies it only to the
    third capture of its pattern, which holds letters A, M, P in either
    case. *)
Definition upperUnit (c : N) : N := if isLowerAZ c then (c - 32)%N else c.
Definition toUpperCase (s : jsstring) : jsstring := map upperUnit s.

(** ** Numbers

    The hooks only compute with small integers and with NaN. *)

Inductive num := NaN | Int (z : Z).

Definition num_add (a : num) (z : Z) : num :=
  match a with NaN => NaN | Int x => Int (x + z) end.

(** [a === z] and [a !== z] against a number literal; NaN equals nothing. *)
Definition num_is (a : num) (z : Z) : bool :=
  match a with NaN => false | Int x => (x =? z)%Z end.

(** [a > z]; false on NaN. *)
Definition num_gt (a : num) (z : Z) : bool :=
  match a with NaN => false | Int x => (z <? x)%Z end.

Definition digitChar (d : Z) : N := (48 + Z.to_N d)%N.
Definition digitVal (c : N) : Z := Z.of_N (c - 48).

(** Decimal digits of a natural number, most significant first. *)
Fixpoint decimalFuel (fuel : nat) (z : Z) (acc : jsstring) : jsstring :=
  match fuel with
  | O => acc
  | S f =>
      let acc' := digitChar (z mod 10) :: acc in
      if (z <? 10)%Z then acc' else decimalFuel f (z / 10) acc'
  end.

Definition decimal (z : Z) : jsstring := decimalFuel (S (Z.to_nat z)) z [].

(** [String(n)] for the numbers above. *)
Definition num_toString (a : num) : jsstring :=
  match a with
  | NaN => lit "NaN"
  | Int z => if (z <? 0)%Z then 45%N :: decimal (- z) else decimal z
  end.

(** [s.padStart(n, "0")]. *)
Definition padStart0 (n : nat) (s : jsstring) : jsstring :=
  repeat 48%N (n - length s) ++ s.

Fixpoint takeWhile (p : N -> bool) (s : jsstring) : jsstring :=
  match s with
  | c :: s' => if p c then c :: takeWhile p s' else []
  | [] => []
  end.

(** Value of a digit string read left to right. *)
Definition digitsValue (ds : jsstring) : Z :=
  fold_left (fun acc c => (10 * acc + digitVal c)%Z) ds 0%Z.

(** [parseInt(s, 10)]: leading white space, an optional sign, then the
    longest run of digits; NaN when that run is empty. *)
Definition parseInt10 (s : jsstring) : num :=
  let s1 := trimStart s in
  let '(neg, s2) :=
    match s1 with
    | c :: r =>
        if charIs 45 c then (true, r)
        else if charIs 43 c then (false, r)
        else (false, s1)
    | [] => (false, s1)
    end in
  let ds := takeWhile isDigit s2 in
  match ds with
  | [] => NaN
  | _ => Int (if neg then - digitsValue ds else digitsValue ds)
  end.

End JS.

(** ** Regular expressions

    The patterns of the repository use literals, character classes,
    sequencing, alternation, bounded repetition, greedy repetition of a
    one-character atom, capturing groups and the two anchors.  The matcher
    is the usual backtracking one, written with a continuation: the first
    way of matching that lets the rest of the pattern succeed wins. *)

Module Regex.
Import JS.

Inductive regex :=
| Empty
| Char (p : N -> bool)
| Seq (r1 r2 : regex)
| Alt (r1 r2 : regex)
| Star (p : N -> bool)
| Group (i : nat) (r : regex)
| Bol
| Eol.

(** [r?], greedy. *)
Definition Opt (r : regex) : regex := Alt r Empty.
(** [c+] for a one-character atom. *)
Definition Plus (p : N -> bool) : regex := Seq (Char p) (Star p).

(** Captures: the latest binding of a group number comes first. *)
Definition captures := list (nat * jsstring).

Fixpoint capture (i : nat) (caps : captures) : option jsstring :=
  match caps with
  | (j, s) :: caps' => if Nat.eqb i j then Some s else capture i caps'
  | [] => None
  end.

Section Matcher.
Context {R : Type}.

(** A continuation receives the position reached, the input left and the
    captures made so far. *)
Definition cont := nat -> jsstring -> captures -> option R.

Fixpoint star (p : N -> bool) (n : nat) (s : jsstring) (caps : captures)
    (k : cont) : option R :=
  match s with
  | c :: s' =>
      if p c then
        match star p (S n) s' caps k with
        | Some x => Some x
        | None => k n s caps
        end
      else k n s caps
  | [] => k n s caps
  end.

Fixpoint rmatch (r : regex) (n : nat) (s : jsstring) (caps : captures)
    (k : cont) : option R :=
  match r with
  | Empty => k n s caps
  | Char p =>
      match s with
      | c :: s' => if p c then k (S n) s' caps else None
      | [] => None
      end
  | Seq r1 r2 =>
      rmatch r1 n s caps (fun n' s' caps' => rmatch r2 n' s' caps' k)
  | Alt r1 r2 =>
      match rmatch r1 n s caps k with
      | Some x => Some x
      | None => rmatch r2 n s caps k
      end
  | Star p => star p n s caps k
  | Group i r =>
      rmatch r n s caps
        (fun n' s' caps' => k n' s' ((i, take (n' - n) s) :: caps'))
  | Bol => if Nat.eqb n 0 then k n s caps else None
  | Eol => match s with [] => k n s caps | _ :: _ => None end
  end.

End Matcher.

(** What a pattern can match: the text [pre] it consumes when [rest]
    follows.  Positions and captures are left out; the anchors constrain
    what follows only. *)
Fixpoint denote (r : regex) (pre rest : jsstring) : Prop :=
  match r with
  | Empty => pre = []
  | Char p => exists c, pre = [c] /\ p c = true
  | Seq r1 r2 =>
      exists p1 p2,
        pre = p1 ++ p2 /\ denote r1 p1 (p2 ++ rest) /\ denote r2 p2 rest
  | Alt r1 r2 => denote r1 pre rest \/ denote r2 pre rest
  | Star p => forallb p pre = true
  | Group _ r => denote r pre rest
  | Bol => pre = []
  | Eol => pre = [] /\ rest = []
  end.

(** A successful match: where it starts, where it ends, the input after
    it, and its captures. *)
Record found := Found {
  f_start : nat;
  f_end : nat;
  f_rest : jsstring;
  f_caps : captures
}.

(** Try the pattern at position [n], then at each later position. *)
Fixpoint exec (r : regex) (n : nat) (s : jsstring) : option found :=
  match rmatch r n s [] (fun n' s' caps => Some (Found n n' s' caps)) with
  | Some m => Some m
  | None =>
      match s with
      | _ :: s' => exec r (S n) s'
      | [] => None
      end
  end.

(** [s.match(r)] for a pattern without the [g] flag. *)
Definition str_match (r : regex) (s : jsstring) : option found := exec r 0 s.

(** [s.replace(r, by_)] for a pattern with the [g] flag: every match, left
    to right, is replaced; after an empty match one character is copied.
    The fuel bounds the number of matches by the length of the input. *)
Fixpoint replaceFuel (fuel : nat) (r : regex) (by_ : jsstring) (n : nat)
    (s : jsstring) : jsstring :=
  match fuel with
  | O => s
  | S fuel' =>
      match exec r n s with
      | None => s
      | Some m =>
          take (f_start m - n) s ++ by_ ++
          (if Nat.eqb (f_end m) (f_start m) then
             match f_rest m with
             | c :: s' => c :: replaceFuel fuel' r by_ (S (f_end m)) s'
             | [] => []
             end
           else replaceFuel fuel' r by_ (f_end m) (f_rest m))
      end
  end.

Definition replaceAll (r : regex) (by_ : jsstring) (s : jsstring) : jsstring :=
  replaceFuel (S (length s)) r by_ 0 s.

End Regex.

(** ** Dates

    A [Date] holds a time value: milliseconds since the epoch, or NaN. *)

Module JSDate.
Import JS.
Local Open Scope Z_scope.

Definition msPerDay : Z := 86400000.
Definition maxTime : Z := 8640000000000000.

(** TimeClip. *)
Definition timeClip (t : num) : num :=
  match t with
  | NaN => NaN
  | Int z => if Z.abs z <=? maxTime then Int z else NaN
  end.

Definition isLeap (y : Z) : bool :=
  ((y mod 4 =? 0) && negb (y mod 100 =? 0)) || (y mod 400 =? 0).

Definition daysInMonth (y m : Z) : Z :=
  if m =? 2 then (if isLeap y then 29 else 28)
  else if (m =? 4) || (m =? 6) || (m =? 9) || (m =? 11) then 30
  else 31.

(** DayFromYear of the language definition: the day number of the first
    day of a year. *)
Definition dayFromYear (y : Z) : Z :=
  365 * (y - 1970) + (y - 1969) / 4 - (y - 1901) / 100 + (y - 1601) / 400.

(** Day number (days since the epoch) of a proleptic Gregorian date. *)
Definition daysFromCivil (y m d : Z) : Z :=
  let y' := if m <=? 2 then y - 1 else y in
  let era := y' / 400 in
  let yoe := y' - era * 400 in
  let mp := if 2 <? m then m - 3 else m + 9 in
  let doy := (153 * mp + 2) / 5 + d - 1 in
  let doe := yoe * 365 + yoe / 4 - yoe / 100 + doy in
  era * 146097 + doe - 719468.

(** Year, month (1 to 12) and day of the month of a day number. *)
Definition civilFromDays (z : Z) : Z * Z * Z :=
  let z' := z + 719468 in
  let era := z' / 146097 in
  let doe := z' - era * 146097 in
  let yoe := (doe - doe / 1460 + doe / 36524 - doe / 146096) / 365 in
  let doy := doe - (365 * yoe + yoe / 4 - yoe / 100) in
  let mp := (5 * doy + 2) / 153 in
  let d := doy - (153 * mp + 2) / 5 + 1 in
  let m := if mp <? 10 then mp + 3 else mp - 9 in
  let y := yoe + era * 400 in
  (if m <=? 2 then y + 1 else y, m, d).

Definition pad (n : nat) (z : Z) : jsstring := padStart0 n (decimal z).

(** The year of [toISOString]: four digits from 0 to 9999, otherwise a
    sign and six digits. *)
Definition isoYear (y : Z) : jsstring :=
  if (0 <=? y) && (y <=? 9999) then pad 4 y
  else (if y <? 0 then 45%N else 43%N) :: pad 6 (Z.abs y).

(** [toISOString] of a finite time value, in UTC. *)
Definition toISOString (t : Z) : jsstring :=
  let '(y, m, d) := civilFromDays (t / msPerDay) in
  let ms := t mod msPerDay in
  isoYear y ++ lit "-" ++ pad 2 m ++ lit "-" ++ pad 2 d ++ lit "T"
  ++ pad 2 (ms / 3600000) ++ lit ":" ++ pad 2 (ms / 60000 mod 60) ++ lit ":"
  ++ pad 2 (ms / 1000 mod 60) ++ lit "." ++ pad 3 (ms mod 1000) ++ lit "Z".

(** [s.split(sep)[0]] for a one-character separator: the text before its
    first occurrence, all of [s] when there is none. *)
Definition splitHead (sep : N) (s : jsstring) : jsstring :=
  takeWhile (fun c => negb (charIs sep c)) s.

(** The date-only form of the language's date-time string format,
    [YYYY-MM-DD] or with an expanded year [+YYYYYY-MM-DD], [-YYYYYY-MM-DD],
    naming a day of the calendar; it denotes midnight UTC of that day.
    Anything else is left to [Date.parse]'s fallback below. *)
Definition parseMonthDay (y : Z) (rest : jsstring) : option Z :=
  match rest with
  | [a; m1; m2; b; d1; d2] =>
      let m := digitsValue [m1; m2] in
      let d := digitsValue [d1; d2] in
      if charIs 45 a && charIs 45 b && forallb isDigit [m1; m2; d1; d2]
         && (1 <=? m) && (m <=? 12) && (1 <=? d) && (d <=? daysInMonth y m)
      then Some (daysFromCivil y m d * msPerDay)
      else None
  | _ => None
  end.

Definition parseIsoDateOnly (s : jsstring) : option Z :=
  match s with
  | [] => None
  | c :: s' =>
      if charIs 43 c || charIs 45 c then
        let ys := take 6 s' in
        let y := digitsValue ys in
        if Nat.eqb (length ys) 6 && forallb isDigit ys
           && negb (charIs 45 c && (y =? 0))
        then parseMonthDay (if charIs 45 c then - y else y) (drop 6 s')
        else None
      else
        let ys := take 4 s in
        if Nat.eqb (length ys) 4 && forallb isDigit ys
        then parseMonthDay (digitsValue ys) (drop 4 s)
        else None
  end.

(** The date part of [toISOString]. *)
Definition isoDate (y m d : Z) : jsstring :=
  isoYear y ++ lit "-" ++ pad 2 m ++ lit "-" ++ pad 2 d.

Definition validDate (y m d : Z) : bool :=
  (1 <=? m) && (m <=? 12) && (1 <=? d) && (d <=? daysInMonth y m).

Section Parse.
(** What the engine's [Date.parse] answers for a string that is not a
    date-only form as above: other forms of the format, and whatever
    else the engine chooses to understand, in whatever time zone the
    process runs in. *)
Variable engineParse : jsstring -> num.

Definition Date_parse (s : jsstring) : num :=
  match parseIsoDateOnly s with
  | Some t => timeClip (Int t)
  | None => timeClip (engineParse s)
  end.

(** [new Date(s).getTime()]. *)
Definition Date_new (s : jsstring) : num := Date_parse s.

End Parse.

End JSDate.

(** ** Documents

    What Mongoose knows about a document besides its fields: whether it
    has never been saved, and which paths were assigned since it was
    loaded. *)

Module Doc.

Record DocState := {
  isNew : bool;
  modifiedPaths : list string
}.

Definition isModified (st : DocState) (path : string) : bool :=
  existsb (String.eqb path) (modifiedPaths st).

End Doc.

(** ** database/event.model.ts *)

Module EventModel.
Import JS Regex JSDate Doc.

Record IEvent := {
  title : jsstring;
  slug : jsstring;
  description : jsstring;
  overview : jsstring;
  image : jsstring;
  venue : jsstring;
  location : jsstring;
  date : jsstring;
  time : jsstring;
  mode : jsstring;
  audience : jsstring;
  agenda : list jsstring;
  organizer : jsstring;
  tags : list jsstring;
  createdAt : Z;
  updatedAt : Z
}.

Definition set_slug (v : jsstring) (e : IEvent) : IEvent :=
  {| title := title e; slug := v; description := description e;
     overview := overview e; image := image e; venue := venue e;
     location := location e; date := date e; time := time e;
     mode := mode e; audience := audience e; agenda := agenda e;
     organizer := organizer e; tags := tags e;
     createdAt := createdAt e; updatedAt := updatedAt e |}.

Definition set_date (v : jsstring) (e : IEvent) : IEvent :=
  {| title := title e; slug := slug e; description := description e;
     overview := overview e; image := image e; venue := venue e;
     location := location e; date := v; time := time e;
     mode := mode e; audience := audience e; agenda := agenda e;
     organizer := organizer e; tags := tags e;
     createdAt := createdAt e; updatedAt := updatedAt e |}.

Definition set_time (v : jsstring) (e : IEvent) : IEvent :=
  {| title := title e; slug := slug e; description := description e;
     overview := overview e; image := image e; venue := venue e;
     location := location e; date := date e; time := v;
     mode := mode e; audience := audience e; agenda := agenda e;
     organizer := organizer e; tags := tags e;
     createdAt := createdAt e; updatedAt := updatedAt e |}.

(** The three errors the hook throws, with the field value they quote. *)
Inductive error :=
| InvalidDateValue (date : jsstring)
| InvalidTimeFormat (time : jsstring)
| TimeOutOfRange (time : jsstring).

Definition quoted (s : jsstring) : jsstring := 34%N :: s ++ [34%N].

Definition message (e : error) : jsstring :=
  match e with
  | InvalidDateValue d => lit "Invalid date value: " ++ quoted d
  | InvalidTimeFormat t =>
      lit "Invalid time format: " ++ quoted t
      ++ lit ". Expected HH:MM or HH:MM AM/PM."
  | TimeOutOfRange t => lit "Time out of range: " ++ quoted t ++ lit "."
  end.

Inductive result (A : Type) :=
| Ok (a : A)
| Throw (e : error).
Arguments Ok {A} a.
Arguments Throw {A} e.

(** [/[^a-z0-9\s-]/g] *)
Definition slugChar (c : N) : bool :=
  isLowerAZ c || isDigit c || isWhiteSpace c || charIs 45 c.
Definition notSlugChar : regex := Char (fun c => negb (slugChar c)).

(** [/\s+/g] *)
Definition whiteSpaceRun : regex := Plus isWhiteSpace.

(** Lines 49 to 53. *)
Definition slugify (title : jsstring) : jsstring :=
  replaceAll whiteSpaceRun (lit "-")
    (trim (replaceAll notSlugChar [] (toLowerCase title))).

(** The [i] flag: a Basic Latin letter of the pattern matches itself in
    either case and nothing else (a code unit outside Basic Latin is never
    folded into it). *)
Definition letter (upper : N) (c : N) : bool :=
  charIs upper c || charIs (upper + 32) c.

Definition digit : regex := Char isDigit.
Definition colon : regex := Char (charIs 58).

(** [/^(\d{1,2}):(\d{2})(?::\d{2})?(?:\s*(AM|PM))?$/i], part by part. *)
Definition hourPart : regex := Group 1 (Seq digit (Opt digit)).
Definition minutePart : regex := Group 2 (Seq digit digit).
Definition secondsPart : regex := Opt (Seq colon (Seq digit digit)).
Definition meridiemPart : regex :=
  Opt (Seq (Star isWhiteSpace)
           (Group 3 (Alt (Seq (Char (letter 65)) (Char (letter 77)))
                         (Seq (Char (letter 80)) (Char (letter 77)))))).
Definition timeEnd : regex := Seq meridiemPart Eol.
Definition timeTail : regex := Seq secondsPart timeEnd.
Definition timePattern : regex :=
  Seq Bol (Seq hourPart (Seq colon (Seq minutePart timeTail))).

(** A capture that did not take part reads as [undefined]; where the hook
    passes it on, [undefined] behaves as the text "undefined". *)
Definition group (i : nat) (m : found) : jsstring :=
  match capture i (f_caps m) with
  | Some s => s
  | None => lit "undefined"
  end.

Definition strEq (a b : jsstring) : bool := bool_decide (a = b).

(** Lines 63 to 85, as a function of the field. *)
Definition normalizeTime (time : jsstring) : result jsstring :=
  match str_match timePattern (trim time) with
  | None => Throw (InvalidTimeFormat time)
  | Some timeMatch =>
      let hours := parseInt10 (group 1 timeMatch) in
      let minutes := group 2 timeMatch in
      let meridiem := option_map toUpperCase (capture 3 (f_caps timeMatch)) in
      let isPM := match meridiem with Some m => strEq m (lit "PM") | None => false end in
      let isAM := match meridiem with Some m => strEq m (lit "AM") | None => false end in
      let hours := if isPM && negb (num_is hours 12) then num_add hours 12 else hours in
      let hours := if isAM && num_is hours 12 then Int 0 else hours in
      if num_gt hours 23 || num_gt (parseInt10 minutes) 59
      then Throw (TimeOutOfRange time)
      else Ok (padStart0 2 (num_toString hours) ++ lit ":" ++ minutes)
  end.

Section Hook.
Variable engineParse : jsstring -> num.

(** Lines 56 to 61, as a function of the field. *)
Definition normalizeDate (date : jsstring) : result jsstring :=
  match Date_new engineParse date with
  | NaN => Throw (InvalidDateValue date)
  | Int parsed => Ok (splitHead 84 (toISOString parsed))
  end.

(** The hook.  It returns the document as it is left in memory and the
    error thrown, if any; a thrown error aborts the save. *)
Definition preSave (st : DocState) (this : IEvent) : IEvent * option error :=
  let this :=
    if isNew st || isModified st "title"
    then set_slug (slugify (title this)) this
    else this in
  match normalizeDate (date this) with
  | Throw e => (this, Some e)
  | Ok d =>
      let this := set_date d this in
      match normalizeTime (time this) with
      | Throw e => (this, Some e)
      | Ok t => (set_time t this, None)
      end
  end.

End Hook.

End EventModel.

(** ** The Booking model

    The repository keeps two definitions of the model.  [BookingSchema]
    is the one with the guarded hook and the unique index on
    (eventId, email); [bookingSchema] is the one of
    [database/booking.model.ts]. *)

Module BookingModel.
Import JS Doc.

Definition ObjectId := N.

Record IBooking := {
  _id : ObjectId;
  eventId : ObjectId;
  email : jsstring;
  createdAt : Z;
  updatedAt : Z
}.

(** The database as the hooks see it: the two collections by identity,
    whether queries currently get through, and the existence lookups made
    against the Event collection so far, latest first. *)
Record Db := {
  events : gmap ObjectId EventModel.IEvent;
  bookings : gmap ObjectId IBooking;
  reachable : bool;
  lookups : list ObjectId
}.

Definition set_bookings (b : gmap ObjectId IBooking) (db : Db) : Db :=
  {| events := events db; bookings := b; reachable := reachable db;
     lookups := lookups db |}.

Definition log_lookup (id : ObjectId) (db : Db) : Db :=
  {| events := events db; bookings := bookings db; reachable := reachable db;
     lookups := id :: lookups db |}.

Inductive reason :=
| EventDoesNotExist (id : ObjectId)
| InvalidIdOrDatabaseError
| ReferencedEventDoesNotExist (id : ObjectId)
| InvalidEmail (v : jsstring).

(** An error by its [name]: ValidationError (set by the guarded hook, and
    raised by field validation), a plain Error, the TypeError of calling
    what is not a function, a duplicate key reported by the storage layer
    for the named unique index, and failures of the connection or the
    query. *)
Inductive error :=
| ValidationError (why : reason)
| PlainError (why : reason)
| TypeError
| ConstraintViolation (index : string)
| DocumentNotFound
| DatabaseError.

(** Code that talks to the database: it threads the database and either
    throws or returns. *)
Definition M (A : Type) : Type := Db -> Db * (error + A).

Definition ret {A} (a : A) : M A := fun db => (db, inr a).
Definition throw {A} (e : error) : M A := fun db => (db, inl e).
Definition bind {A B} (m : M A) (k : A -> M B) : M B :=
  fun db =>
    match m db with
    | (db', inl e) => (db', inl e)
    | (db', inr a) => k a db'
    end.
Definition try_catch {A} (m : M A) (h : error -> M A) : M A :=
  fun db =>
    match m db with
    | (db', inl e) => h e db'
    | (db', inr a) => (db', inr a)
    end.

#[export] Instance M_ret : MRet M := @ret.
#[export] Instance M_bind : MBind M := fun A B k m => bind m k.

(** [Event.findById(id).select('_id')]: the document, or null. *)
Definition Event_findById (id : ObjectId) : M (option EventModel.IEvent) :=
  fun db =>
    let db' := log_lookup id db in
    if reachable db then (db', inr (events db !! id))
    else (db', inl DatabaseError).

(** [Event.exists({ _id: id })]: truthy exactly when there is one. *)
Definition Event_exists (id : ObjectId) : M bool :=
  fun db =>
    let db' := log_lookup id db in
    if reachable db then (db', inr (bool_decide (is_Some (events db !! id))))
    else (db', inl DatabaseError).

(** What Mongoose hands a pre-save hook as its first argument, which the
    guarded hook names [next].  Up to Mongoose 8 it is the callback that
    ends the hook.  Under the async hook pattern of Mongoose 9, which
    database/event.model.ts (line 45) and database/booking.model.ts are
    written for, no callback is passed, and what the hook receives is not a
    function. *)
Inductive hookArg :=
| Callback
| NotAFunction.

(** [next(e)] and [next()].  The callback takes what it is handed, an error
    to abort the save with or nothing, and returns; calling what is not a
    function throws a TypeError at the call. *)
Definition call (next : hookArg) (handed : option error)
    : M (option error) :=
  match next with
  | Callback => ret handed
  | NotAFunction => throw TypeError
  end.

(** How the save goes on after the hook: aborted with the error the
    callback was handed, or continued. *)
Definition handed_over (handed : option error) : M unit :=
  match handed with
  | Some e => throw e
  | None => ret tt
  end.

(** part_000, lines 44 to 65.  Inside the guard the hook either returns
    with what [next] was handed ([Some]) or falls through ([None]) to the
    call of [next] on line 64.  A call of [next] inside [try] that throws is
    caught by the [catch] like any other error. *)
Definition BookingSchema_preSave (next : hookArg) (st : DocState)
    (booking : IBooking) : M unit :=
  returned ←
    (if isModified st "eventId" || isNew st then
       try_catch
         (eventExists ← Event_findById (eventId booking);
          match eventExists with
          | None =>
              handed ← call next
                (Some (ValidationError (EventDoesNotExist (eventId booking))));
              ret (Some handed)
          | Some _ => ret None
          end)
         (fun _ =>
            handed ← call next (Some (ValidationError InvalidIdOrDatabaseError));
            ret (Some handed))
     else ret None);
  handed ← match returned with
           | Some handed => ret handed
           | None => call next None
           end;
  handed_over handed.

(** database/booking.model.ts, lines 41 to 46. *)
Definition bookingSchema_preSave (st : DocState) (this : IBooking) : M unit :=
  exists_ ← Event_exists (eventId this);
  if negb exists_
  then throw (PlainError (ReferencedEventDoesNotExist (eventId this)))
  else ret tt.

(** *** Indexes *)

Inductive value :=
| VId (o : ObjectId)
| VStr (s : jsstring)
| VTime (t : Z).

#[export] Instance value_eq_dec : EqDecision value.
Proof. solve_decision. Defined.

Record Index := {
  ix_keys : list (string * Z);
  ix_unique : bool;
  ix_name : string
}.

Definition field (path : string) (b : IBooking) : option value :=
  if String.eqb path "eventId" then Some (VId (eventId b))
  else if String.eqb path "email" then Some (VStr (email b))
  else if String.eqb path "createdAt" then Some (VTime (createdAt b))
  else if String.eqb path "updatedAt" then Some (VTime (updatedAt b))
  else if String.eqb path "_id" then Some (VId (_id b))
  else None.

Definition key (ix : Index) (b : IBooking) : list (option value) :=
  map (fun k => field (fst k) b) (ix_keys ix).

(** part_000, lines 67 to 77. *)
Definition BookingSchema_indexes : list Index :=
  [ {| ix_keys := [("eventId"%string, 1%Z)]; ix_unique := false;
       ix_name := "eventId_1"%string |};
    {| ix_keys := [("eventId"%string, 1%Z); ("createdAt"%string, (-1)%Z)];
       ix_unique := false; ix_name := "eventId_1_createdAt_-1"%string |};
    {| ix_keys := [("email"%string, 1%Z)]; ix_unique := false;
       ix_name := "email_1"%string |};
    {| ix_keys := [("eventId"%string, 1%Z); ("email"%string, 1%Z)]; ix_unique := true;
       ix_name := "uniq_event_email"%string |} ].

(** database/booking.model.ts, line 23: [index: true] on eventId. *)
Definition bookingSchema_indexes : list Index :=
  [ {| ix_keys := [("eventId"%string, 1%Z)]; ix_unique := false;
       ix_name := "eventId_1"%string |} ].

(** *** Saving

    A schema as far as saving goes: the validator of the email field, the
    pre-save hook and the indexes. *)
Record Schema := {
  emailValidator : jsstring -> bool;
  preSave : DocState -> IBooking -> M unit;
  indexes : list Index
}.

(** Modelled from the spec: the storage layer and Mongoose's own part of
    [save] are not in the repository.  The email shape check is part of
    each save; it comes first and raises a field-validation error before
    the hook runs (4.3, step 1). *)
Definition validate (sch : Schema) (doc : IBooking) : M unit :=
  if negb (emailValidator sch (email doc))
  then throw (ValidationError (InvalidEmail (email doc)))
  else ret tt.

(** Modelled from the spec: a unique index admits at most one document
    per key; a write that would add a second one fails with a constraint
    violation naming the index (section 6 and 4.3). *)
Definition duplicateOn (ixs : list Index) (doc : IBooking)
    (others : gmap ObjectId IBooking) : option Index :=
  find (fun ix =>
          ix_unique ix &&
          existsb (fun kv => bool_decide (key ix (snd kv) = key ix doc))
                  (map_to_list others))
       ixs.

(** Modelled from the spec: the stored document after an update, which
    sets the modified paths. *)
Definition merge (st : DocState) (doc stored : IBooking) : IBooking :=
  {| _id := _id stored;
     eventId := if isModified st "eventId" then eventId doc else eventId stored;
     email := if isModified st "email" then email doc else email stored;
     createdAt := createdAt stored;
     updatedAt := updatedAt doc |}.

(** Modelled from the spec: the write itself.  A new document is
    inserted, an existing one has its modified paths set; either way no
    unique index may end up with two documents on one key. *)
Definition persist (ixs : list Index) (st : DocState) (doc : IBooking) : M unit :=
  fun db =>
    if negb (reachable db) then (db, inl DatabaseError) else
    if isNew st then
      match bookings db !! _id doc with
      | Some _ => (db, inl (ConstraintViolation "_id_"))
      | None =>
          match duplicateOn ixs doc (bookings db) with
          | Some ix => (db, inl (ConstraintViolation (ix_name ix)))
          | None => (set_bookings (<[_id doc := doc]> (bookings db)) db, inr tt)
          end
      end
    else
      match bookings db !! _id doc with
      | None => (db, inl DocumentNotFound)
      | Some stored =>
          let doc' := merge st doc stored in
          match duplicateOn ixs doc' (delete (_id doc) (bookings db)) with
          | Some ix => (db, inl (ConstraintViolation (ix_name ix)))
          | None => (set_bookings (<[_id doc := doc']> (bookings db)) db, inr tt)
          end
      end.

(** Modelled from the spec: timestamps are system-managed, set on create
    and on update. *)
Definition stamp (now : Z) (st : DocState) (doc : IBooking) : IBooking :=
  {| _id := _id doc; eventId := eventId doc; email := email doc;
     createdAt := if isNew st then now else createdAt doc;
     updatedAt := now |}.

(** Modelled from the spec: [doc.save()] is Mongoose's.  It runs field
    validation, then the schema's pre-save hook, then the write; the first
    error aborts the rest (4.3 and 7). *)
Definition save (sch : Schema) (now : Z) (st : DocState) (doc : IBooking) : M unit :=
  validate sch doc;;
  preSave sch st doc;;
  persist (indexes sch) st (stamp now st doc).


Section Variants.
(** The email patterns of the two variants are not needed to state what
    follows; each schema takes its validator as given. *)
Variable validator : jsstring -> bool.

Definition BookingSchema (next : hookArg) : Schema :=
  {| emailValidator := validator;
     preSave := BookingSchema_preSave next;
     indexes := BookingSchema_indexes |}.

Definition bookingSchema : Schema :=
  {| emailValidator := validator;
     preSave := bookingSchema_preSave;
     indexes := bookingSchema_indexes |}.

End Variants.


End BookingModel.

(** ** lib/mongodb.ts: the cached connection *)

Module Mongodb.

(** The connected Mongoose instance, by identity. *)
Definition Mongoose := N.

(** How a connection attempt ends. *)
Inductive settled :=
| Fulfilled (m : Mongoose)
| Rejected (reason : N).

(** A promise is known by the number of the attempt it stands for. *)
Record MongooseCache := {
  conn : option Mongoose;
  promise : option nat
}.

(** The process: the cache kept on [global], and how many times
    [mongoose.connect] has been called. *)
Record Process := {
  cached : MongooseCache;
  attempts : nat
}.

(** Lines 131 to 161: without a connection string the module throws while
    loading; otherwise it starts from an empty cache. *)
Definition load (MONGODB_URI : option JS.jsstring) : option Process :=
  match MONGODB_URI with
  | None | Some [] => None
  | Some _ =>
      Some {| cached := {| conn := None; promise := None |}; attempts := 0 |}
  end.

Section Connect.
(** How the attempt with a given number settles. *)
Variable settle : nat -> settled.

(** Lines 174 to 194.  A call is run to completion: awaiting the promise
    yields how its attempt settled. *)
Definition connectToDatabase (p : Process) : Process * (N + Mongoose) :=
  match conn (cached p) with
  | Some c => (p, inr c)
  | None =>
      let '(p1, pending) :=
        match promise (cached p) with
        | None =>
            ({| cached := {| conn := conn (cached p);
                             promise := Some (attempts p) |};
                attempts := S (attempts p) |}, attempts p)
        | Some a => (p, a)
        end in
      match settle pending with
      | Fulfilled m =>
          ({| cached := {| conn := Some m; promise := promise (cached p1) |};
              attempts := attempts p1 |}, inr m)
      | Rejected e => (p1, inl e)
      end
  end.

End Connect.

End Mongodb.

(** ** The specification's wording of the derived values *)

Module Spec.
Import JS.

(** "Replace every run of whitespace with a single hyphen": a hyphen is
    written when a run starts, and nothing for the rest of the run. *)
Fixpoint hyphenate (inRun : bool) (s : jsstring) : jsstring :=
  match s with
  | [] => []
  | c :: s' =>
      if isWhiteSpace c
      then (if inRun then hyphenate true s' else 45%N :: hyphenate true s')
      else c :: hyphenate false s'
  end.

(** "Lowercase the title; remove every character not in [a-z0-9,
    whitespace, hyphen]; trim leading/trailing whitespace; replace every
    run of whitespace with a single hyphen." *)
Definition slug (title : jsstring) : jsstring :=
  hyphenate false
    (trim (List.filter EventModel.slugChar (toLowerCase title))).

(** Lowercase letters, digits and hyphens. *)
Definition slugLetter (c : N) : bool :=
  isLowerAZ c || isDigit c || charIs 45 c.

(** "Canonical YYYY-MM-DD". *)
Definition calendarForm (s : jsstring) : bool :=
  match s with
  | [y1; y2; y3; y4; a; m1; m2; b; d1; d2] =>
      forallb isDigit [y1; y2; y3; y4; m1; m2; d1; d2]
      && charIs 45 a && charIs 45 b
  | _ => false
  end.

(** The meridiem markers, and the hour they turn a 12-hour reading into:
    "PM adds 12 to hour unless hour already 12; AM sets hour to 0 when hour
    is 12, otherwise unchanged". *)
Inductive meridiem := AM | PM.

Definition to24 (m : option meridiem) (hour : Z) : Z :=
  match m with
  | Some PM => if (hour =? 12)%Z then hour else (hour + 12)%Z
  | Some AM => if (hour =? 12)%Z then 0%Z else hour
  | None => hour
  end.

(** A marker as it may be spelled, in either case. *)
Definition spells (m : meridiem) (txt : jsstring) : bool :=
  match txt with
  | [a; b] =>
      EventModel.letter (match m with AM => 65 | PM => 80 end) a
      && EventModel.letter 77 b
  | _ => false
  end.

(** The optional parts of a time: seconds, and a marker after any amount
    of white space. *)
Definition secondsText (secs : option jsstring) : jsstring :=
  match secs with
  | Some ss => 58%N :: ss
  | None => []
  end.

Definition markerText (mer : option (jsstring * jsstring)) : jsstring :=
  match mer with
  | Some (gap, txt) => gap ++ txt
  | None => []
  end.

(** "H or HH : MM (optional :SS) (optional AM/PM, case-insensitive)". *)
Definition timeText (hh mm : jsstring) (secs : option jsstring)
    (mer : option (jsstring * jsstring)) : jsstring :=
  hh ++ 58%N :: mm ++ secondsText secs ++ markerText mer.

Definition wellFormedSeconds (secs : option jsstring) : bool :=
  match secs with
  | Some ss => Nat.eqb (length ss) 2 && forallb isDigit ss
  | None => true
  end.

Definition wellFormedMarker (mer : option (jsstring * jsstring))
    (m : option meridiem) : bool :=
  match mer, m with
  | Some (gap, txt), Some w => forallb isWhiteSpace gap && spells w txt
  | None, None => true
  | _, _ => false
  end.

Definition wellFormedTime (hh mm : jsstring) (secs : option jsstring)
    (mer : option (jsstring * jsstring)) (m : option meridiem) : bool :=
  (Nat.eqb (length hh) 1 || Nat.eqb (length hh) 2) && forallb isDigit hh
  && (Nat.eqb (length mm) 2 && forallb isDigit mm)
  && wellFormedSeconds secs
  && wellFormedMarker mer m.

(** The captures of a match of such a text: the marker, when there is
    one, is the third and latest. *)
Definition timeCaps (hh mm : jsstring) (mer : option (jsstring * jsstring))
    : Regex.captures :=
  match mer with
  | Some (_, txt) => [(3%nat, txt)]
  | None => []
  end ++ [(2%nat, mm); (1%nat, hh)].

(** Zero-padded HH:MM. *)
Definition clock (hour : Z) (mm : jsstring) : jsstring :=
  [digitChar (hour / 10); digitChar (hour mod 10); 58%N] ++ mm.

End Spec.

(** ** Sample data *)

Module Samples.
Import JS Doc.

Definition created : DocState := {| isNew := true; modifiedPaths := [] |}.
Definition loaded : DocState := {| isNew := false; modifiedPaths := [] |}.
Definition emailChanged : DocState :=
  {| isNew := false; modifiedPaths := ["email"%string] |}.

(** An engine that understands nothing beyond the date-only form. *)
Definition strictEngine : jsstring -> num := fun _ => NaN.

(** An engine that reads "March 5, 2025" as midnight of that day on the
    clock of the process, which runs the given number of minutes ahead of
    UTC, and understands nothing else. *)
Definition localEngine (minutesAhead : Z) : jsstring -> num :=
  fun s =>
    if EventModel.strEq s (lit "March 5, 2025")
    then Int (1741132800000 - minutesAhead * 60000)
    else NaN.

Definition meetup : EventModel.IEvent :=
  {| EventModel.title := lit "Hello, World!  2024";
     EventModel.slug := [];
     EventModel.description := lit "An evening of talks";
     EventModel.overview := lit "Talks and pizza";
     EventModel.image := lit "/images/meetup.png";
     EventModel.venue := lit "Hall 1";
     EventModel.location := lit "Berlin";
     EventModel.date := lit "2025-03-05";
     EventModel.time := lit "2:30 PM";
     EventModel.mode := lit "offline";
     EventModel.audience := lit "developers";
     EventModel.agenda := [lit "Doors"; lit "Talks"];
     EventModel.organizer := lit "dev-events";
     EventModel.tags := [lit "rust"];
     EventModel.createdAt := 0;
     EventModel.updatedAt := 0 |}.

(** The same event as stored by a first save, with its slug then set by
    hand. *)
Definition renamed : EventModel.IEvent :=
  EventModel.set_slug (lit "custom")
    (EventModel.set_time (lit "14:30") meetup).

(** A booking whose event has since been deleted. *)
Definition kept : BookingModel.IBooking :=
  {| BookingModel._id := 1%N; BookingModel.eventId := 7%N;
     BookingModel.email := lit "ada@example.com";
     BookingModel.createdAt := 0; BookingModel.updatedAt := 0 |}.

Definition keptElsewhere : BookingModel.IBooking :=
  {| BookingModel._id := 1%N; BookingModel.eventId := 7%N;
     BookingModel.email := lit "ada@example.org";
     BookingModel.createdAt := 0; BookingModel.updatedAt := 0 |}.

Definition orphaned : BookingModel.Db :=
  {| BookingModel.events := ∅;
     BookingModel.bookings := {[ 1%N := kept ]};
     BookingModel.reachable := true;
     BookingModel.lookups := [] |}.

(** One event, no booking yet; and a second booking for it under the
    same address. *)
Definition announced : BookingModel.Db :=
  {| BookingModel.events := {[ 7%N := meetup ]};
     BookingModel.bookings := ∅;
     BookingModel.reachable := true;
     BookingModel.lookups := [] |}.

Definition again : BookingModel.IBooking :=
  {| BookingModel._id := 2%N; BookingModel.eventId := 7%N;
     BookingModel.email := lit "ada@example.com";
     BookingModel.createdAt := 0; BookingModel.updatedAt := 0 |}.

Definition anyEmail : jsstring -> bool := fun _ => true.
Definition noEmail : jsstring -> bool := fun _ => false.

(** A server that refuses the first connection attempt only. *)
Definition flaky (attempt : nat) : Mongodb.settled :=
  match attempt with
  | O => Mongodb.Rejected 7%N
  | S _ => Mongodb.Fulfilled 1%N
  end.

Definition fresh : Mongodb.Process :=
  {| Mongodb.cached := {| Mongodb.conn := None; Mongodb.promise := None |};
     Mongodb.attempts := 0 |}.

(** The same event, planned for the year 10000. *)
Definition farAhead : EventModel.IEvent :=
  EventModel.set_date (lit "+010000-01-01") meetup.

End Samples.

(** ** The rest of the code: what the save-time code also decides *)

Module More.
Import JS Regex.

(** A title in capitals: Basic Latin letters raised, the rest as it is. *)
Definition capitals (title : jsstring) : jsstring := map upperUnit title.

(** A character that is no letter, digit or hyphen and does not lower to
    one; white space is among these. *)
Definition dropped (c : N) : bool :=
  negb (isLowerAZ c || isUpperAZ c || isDigit c || charIs 45 c
        || charIs 0x212A c || charIs 0x0130 c).

(** A canonical time: two digits, a colon, two digits, the hour at most 23
    and the minute at most 59. *)
Definition canonicalTime (s : jsstring) : bool :=
  match s with
  | [h1; h2; c; m1; m2] =>
      forallb isDigit [h1; h2; m1; m2] && charIs 58 c
      && (digitsValue [h1; h2] <=? 23)%Z && (digitsValue [m1; m2] <=? 59)%Z
  | _ => false
  end.

End More.

(** ** The email pattern of database/booking.model.ts *)

Module Email.
Import JS Regex.

(** [[^\s@]] *)
Definition plain (c : N) : bool := negb (isWhiteSpace c || charIs 64 c).

(** Line 14: [/^[^\s@]+@[^\s@]+\.[^\s@]+$/]. *)
Definition EMAIL_REGEX : regex :=
  Seq Bol
  (Seq (Plus plain)
  (Seq (Char (charIs 64))
  (Seq (Plus plain)
  (Seq (Char (charIs 46))
  (Seq (Plus plain) Eol))))).

(** [r.test(s)] for a pattern without the [g] flag. *)
Definition test (r : regex) (s : jsstring) : bool :=
  match str_match r s with
  | Some _ => true
  | None => false
  end.

(** Line 31: the validator of the email path. *)
Definition validator (v : jsstring) : bool := test EMAIL_REGEX v.

(** A non-empty run of characters other than white space and the at sign. *)
Definition word (s : jsstring) : bool :=
  negb (Nat.eqb (length s) 0) && forallb plain s.

(** A pattern in which the start anchor does not occur. *)
Fixpoint startFree (r : regex) : bool :=
  match r with
  | Bol => false
  | Seq r1 r2 | Alt r1 r2 => startFree r1 && startFree r2
  | Group _ r1 => startFree r1
  | Empty | Char _ | Star _ | Eol => true
  end.

End Email.

(** ** The email pattern of the guarded Booking schema

    This pattern repeats a group and bounds a repetition, which the
    patterns above do not; its matcher repeats any pattern, and lets an
    iteration count only when it consumes input, as the language does. *)

Module Address.
Import JS.

Inductive pattern :=
| Nothing
| One (p : N -> bool)
| Then (a b : pattern)
| Or (a b : pattern)
| Many (a : pattern)
| Bol
| Eol.

(** [a?] and [a{0,n}], greedy: one more [a] is tried first. *)
Definition Maybe (a : pattern) : pattern := Or a Nothing.

Fixpoint AtMost (n : nat) (a : pattern) : pattern :=
  match n with
  | O => Nothing
  | S n' => Or (Then a (AtMost n' a)) Nothing
  end.

Section Matcher.
Context {R : Type}.

Definition cont := nat -> jsstring -> option R.

(** [(?:a)*], greedy, for a body matched by [m].  An iteration that
    consumes nothing is refused.  Every iteration consumes at least one
    character, so the length of the input bounds their number. *)
Fixpoint many (m : nat -> jsstring -> cont -> option R) (fuel : nat)
    (n : nat) (s : jsstring) (k : cont) : option R :=
  match fuel with
  | O => k n s
  | S fuel' =>
      match m n s (fun n' s' =>
                     if Nat.ltb (length s') (length s)
                     then many m fuel' n' s' k
                     else None) with
      | Some x => Some x
      | None => k n s
      end
  end.

Fixpoint pmatch (r : pattern) (n : nat) (s : jsstring) (k : cont)
    : option R :=
  match r with
  | Nothing => k n s
  | One p =>
      match s with
      | c :: s' => if p c then k (S n) s' else None
      | [] => None
      end
  | Then a b => pmatch a n s (fun n' s' => pmatch b n' s' k)
  | Or a b =>
      match pmatch a n s k with
      | Some x => Some x
      | None => pmatch b n s k
      end
  | Many a => many (pmatch a) (length s) n s k
  | Bol => if Nat.eqb n 0 then k n s else None
  | Eol => match s with [] => k n s | _ :: _ => None end
  end.

End Matcher.

(** Try the pattern at position [n], then at each later position. *)
Fixpoint search (r : pattern) (n : nat) (s : jsstring) : bool :=
  match pmatch r n s (fun _ _ => Some tt) with
  | Some _ => true
  | None =>
      match s with
      | _ :: s' => search r (S n) s'
      | [] => false
      end
  end.

(** [r.test(s)] for a pattern without the [g] flag. *)
Definition test (r : pattern) (s : jsstring) : bool := search r 0 s.

(** What a pattern can match: the text [pre] it consumes when [rest]
    follows; a repetition consumes a sequence of non-empty texts. *)
Fixpoint denoteMany (d : jsstring -> jsstring -> Prop) (ws : list jsstring)
    (rest : jsstring) : Prop :=
  match ws with
  | [] => True
  | w :: ws' => w <> [] /\ d w (concat ws' ++ rest) /\ denoteMany d ws' rest
  end.

Fixpoint denote (r : pattern) (pre rest : jsstring) : Prop :=
  match r with
  | Nothing => pre = []
  | One p => exists c, pre = [c] /\ p c = true
  | Then a b =>
      exists p1 p2,
        pre = p1 ++ p2 /\ denote a p1 (p2 ++ rest) /\ denote b p2 rest
  | Or a b => denote a pre rest \/ denote b pre rest
  | Many a => exists ws, pre = concat ws /\ denoteMany (denote a) ws rest
  | Bol => pre = []
  | Eol => pre = [] /\ rest = []
  end.

Fixpoint startFree (r : pattern) : bool :=
  match r with
  | Bol => false
  | Then a b | Or a b => startFree a && startFree b
  | Many a => startFree a
  | Nothing | One _ | Eol => true
  end.

(** [[a-zA-Z0-9]], [[a-zA-Z0-9-]] and the class of the local part. *)
Definition alnum (c : N) : bool := isLowerAZ c || isUpperAZ c || isDigit c.
Definition ldh (c : N) : bool := alnum c || charIs 45 c.
Definition atext (c : N) : bool :=
  alnum c || existsb (N.eqb c) (lit ".!#$%&'*+/=?^_`{|}~-").

(** [[a-zA-Z0-9](?:[a-zA-Z0-9-]{0,61}[a-zA-Z0-9])?] *)
Definition label : pattern :=
  Then (One alnum) (Maybe (Then (AtMost 61 (One ldh)) (One alnum))).

(** part_000 line 31. *)
Definition emailRegex : pattern :=
  Then Bol
  (Then (One atext)
  (Then (Many (One atext))
  (Then (One (charIs 64))
  (Then label
  (Then (Many (Then (One (charIs 46)) label))
  Eol))))).

(** part_000 lines 29 to 33: the validator of the email path. *)
Definition validator (email : jsstring) : bool := test emailRegex email.

(** A host label: 1 to 63 letters, digits and hyphens, with no hyphen at
    either end. *)
Definition hostLabel (l : jsstring) : bool :=
  match l with
  | [] => false
  | c :: _ =>
      Nat.leb (length l) 63 && forallb ldh l && alnum c
      && alnum (List.last l c)
  end.

(** A host name: its first label and the further ones, each after a dot. *)
Definition hostName (first : jsstring) (more : list jsstring) : jsstring :=
  first ++ concat (map (cons 46%N) more).

(** A local part: a non-empty run of the characters allowed there. *)
Definition localPart (s : jsstring) : bool :=
  negb (Nat.eqb (length s) 0) && forallb atext s.

End Address.

(** ** The guard against registering a model twice *)

Module Registry.

(** The schemas of the repository. *)
Inductive schema :=
| eventSchema
| BookingSchema
| bookingSchema.

(** [mongoose.models.X || mongoose.model("X", s)]: the model registered
    under the name if there is one, otherwise a model compiled from [s],
    which is then registered.  A model is known by its schema. *)
Definition modelOr (name : string) (s : schema) (models : gmap string schema)
    : gmap string schema * schema :=
  match models !! name with
  | Some m => (models, m)
  | None => (<[name := s]> models, s)
  end.

(** event.model.ts lines 89 to 91, part_000 line 78, booking.model.ts
    lines 49 to 51. *)
Definition Event (models : gmap string schema) :=
  modelOr "Event" eventSchema models.
Definition Booking_guarded (models : gmap string schema) :=
  modelOr "Booking" BookingSchema models.
Definition Booking_plain (models : gmap string schema) :=
  modelOr "Booking" bookingSchema models.

End Registry.

(** ** connectToDatabase, call by call *)

Module Calls.
Import Mongodb.

(** What a caller gets from an attempt that has settled. *)
Definition outcome (s : settled) : N + Mongoose :=
  match s with
  | Fulfilled m => inr m
  | Rejected e => inl e
  end.

(** The two stretches of a call that run without interruption: from the
    start to the [await] (lines 175 to 191, yielding the connection at once
    or the attempt awaited), and from the settled promise to the end (lines
    191 to 193). *)
Definition connectBegin (p : Process) : Process * (Mongoose + nat) :=
  match conn (cached p) with
  | Some c => (p, inl c)
  | None =>
      match promise (cached p) with
      | None =>
          ({| cached := {| conn := conn (cached p);
                           promise := Some (attempts p) |};
              attempts := S (attempts p) |}, inr (attempts p))
      | Some a => (p, inr a)
      end
  end.

Section Settled.
Variable settle : nat -> settled.

Definition connectResume (awaited : nat) (p : Process)
    : Process * (N + Mongoose) :=
  match settle awaited with
  | Fulfilled m =>
      ({| cached := {| conn := Some m; promise := promise (cached p) |};
          attempts := attempts p |}, inr m)
  | Rejected e => (p, inl e)
  end.

(** Calls made one after the other, each run to its end; the results come
    in the order of the calls. *)
Fixpoint callTimes (n : nat) (p : Process) : Process * list (N + Mongoose) :=
  match n with
  | O => (p, [])
  | S n' =>
      let '(p1, r) := connectToDatabase settle p in
      let '(p2, rs) := callTimes n' p1 in
      (p2, r :: rs)
  end.

(** Calls in flight together: the process, the attempts awaited by the
    suspended callers, and what the finished callers got. *)
Record Run := {
  proc : Process;
  waiting : list nat;
  returned : list (N + Mongoose)
}.

(** One step: a caller starts and returns at once, a caller starts and
    suspends on the promise, or a suspended caller is resumed. *)
Inductive step : Run -> Run -> Prop :=
| step_hit r p1 c :
    connectBegin (proc r) = (p1, inl c) ->
    step r {| proc := p1; waiting := waiting r;
              returned := inr c :: returned r |}
| step_wait r p1 a :
    connectBegin (proc r) = (p1, inr a) ->
    step r {| proc := p1; waiting := a :: waiting r; returned := returned r |}
| step_resume r w1 a w2 p1 res :
    waiting r = w1 ++ a :: w2 ->
    connectResume a (proc r) = (p1, res) ->
    step r {| proc := p1; waiting := w1 ++ w2; returned := res :: returned r |}.

(** A process that has made no attempt yet, and one that has made its
    one attempt. *)
Definition unstarted (p : Process) : Prop :=
  promise (cached p) = None /\ attempts p = 0%nat /\ conn (cached p) = None.

Definition started (p : Process) : Prop :=
  promise (cached p) = Some 0%nat /\ attempts p = 1%nat
  /\ (conn (cached p) = None
      \/ exists m, conn (cached p) = Some m /\ settle 0 = Fulfilled m).

(** What holds of calls in flight together. *)
Definition settledOnce (r : Run) : Prop :=
  (unstarted (proc r) /\ waiting r = [] /\ returned r = [])
  \/ (started (proc r)
      /\ Forall (fun a => a = 0%nat) (waiting r)
      /\ Forall (fun x => x = outcome (settle 0)) (returned r)).

End Settled.

End Calls.

Module MoreSamples.
Import Mongodb Calls.

Definition connectionString : option JS.jsstring :=
  Some (JS.lit "mongodb://localhost:27017/dev-events").


(** The meetup entered with a date in words and an hour that does not
    exist. *)
Definition misdated : EventModel.IEvent :=
  EventModel.set_time (JS.lit "25:00")
    (EventModel.set_date (JS.lit "March 5, 2025") Samples.meetup).

(** Two callers suspended on the first attempt, a third one already
    resumed and turned away. *)
Definition twoWaiting : Run :=
  {| proc := {| cached := {| conn := None; promise := Some 0%nat |};
                attempts := 1 |};
     waiting := [0%nat; 0%nat];
     returned := [inl 7%N] |}.

End MoreSamples.

(** * Properties *)

Import JS Regex JSDate Doc.

(** ** Character classes *)

Ltac class_props :=
  repeat first
    [ rewrite orb_true_iff in * | rewrite andb_true_iff in *
    | rewrite orb_false_iff in * | rewrite andb_false_iff in *
    | rewrite negb_true_iff in * | rewrite negb_false_iff in *
    | rewrite N.leb_le in * | rewrite N.eqb_eq in *
    | rewrite N.leb_gt in * | rewrite N.eqb_neq in * ].

Ltac class_solve :=
  unfold Spec.slugLetter, EventModel.slugChar, EventModel.letter, isDigit,
    isLowerAZ, isUpperAZ, isWhiteSpace, charIs in *;
  class_props; lia.

Lemma digit_not_space c : isDigit c = true -> isWhiteSpace c = false.
Proof. intros H. destruct (isWhiteSpace c) eqn:E; [exfalso | done]. class_solve. Qed.

Lemma slugLetter_not_space c : Spec.slugLetter c = true -> isWhiteSpace c = false.
Proof. intros H. destruct (isWhiteSpace c) eqn:E; [exfalso | done]. class_solve. Qed.

Lemma slugLetter_slugChar c : Spec.slugLetter c = true -> EventModel.slugChar c = true.
Proof. class_solve. Qed.

Lemma slugChar_not_space c :
  EventModel.slugChar c = true -> isWhiteSpace c = false -> Spec.slugLetter c = true.
Proof.
  unfold EventModel.slugChar, Spec.slugLetter. intros H E. rewrite E in H.
  destruct (isLowerAZ c), (isDigit c), (charIs 45 c); done.
Qed.

Lemma slugLetter_lower c : Spec.slugLetter c = true -> lowerUnit c = [c].
Proof.
  intros H. unfold lowerUnit.
  destruct (isUpperAZ c) eqn:E1; [exfalso; class_solve |].
  destruct (c =? 8490)%N eqn:E2; [exfalso; class_solve |].
  destruct (c =? 304)%N eqn:E3; [exfalso; class_solve |]. done.
Qed.

(** ** Global replacement by the two slug patterns *)

Section Replace.
Variable p : N -> bool.

Lemma exec_Char_spec (s : jsstring) : forall n,
  match exec (Char p) n s with
  | None => List.filter (fun c => negb (p c)) s = s
  | Some m =>
      exists pre c,
        s = pre ++ c :: f_rest m /\
        List.filter (fun c => negb (p c)) pre = pre /\
        p c = true /\
        f_start m = (n + length pre)%nat /\
        f_end m = S (f_start m)
  end.
Proof.
  induction s as [|c s IH]; intros n; simpl; [done |].
  destruct (p c) eqn:E; simpl.
  - exists [], c. simpl. repeat split; auto with lia.
  - specialize (IH (S n)). destruct (exec (Char p) (S n) s) as [m|].
    + destruct IH as (pre & c' & -> & Hpre & Hc & Hs & He).
      exists (c :: pre), c'. simpl. rewrite E, Hpre. simpl.
      repeat split; auto with lia.
    + by rewrite IH.
Qed.

Lemma replace_Char : forall fuel n (s : jsstring),
  (length s < fuel)%nat ->
  replaceFuel fuel (Char p) [] n s = List.filter (fun c => negb (p c)) s.
Proof.
  induction fuel as [|fuel IH]; intros n s Hlen; [lia |]. simpl.
  pose proof (exec_Char_spec s n) as H.
  destruct (exec (Char p) n s) as [m|]; [| done].
  destruct H as (pre & c & Hs & Hpre & Hc & Hst & Hen).
  rewrite Hen, Hst.
  replace (n + length pre - n)%nat with (length pre) by lia.
  assert (Nat.eqb (S (n + length pre)) (n + length pre) = false) as ->
    by (apply Nat.eqb_neq; lia).
  rewrite IH by (rewrite Hs, length_app in Hlen; simpl in Hlen; lia).
  transitivity (pre ++ List.filter (fun c0 => negb (p c0)) (f_rest m)).
  - f_equal. rewrite Hs. apply take_app_length.
  - rewrite Hs, List.filter_app. simpl. by rewrite Hc, Hpre.
Qed.

End Replace.

Lemma star_space_total (n0 : nat) : forall (s : jsstring) n caps,
  star isWhiteSpace n s caps
    (fun n' s' caps' => Some (Found n0 n' s' caps'))
  = Some (Found n0 (n + length (takeWhile isWhiteSpace s)) (trimStart s) caps).
Proof.
  induction s as [|c s IH]; intros n caps; simpl.
  - f_equal. f_equal. lia.
  - destruct (isWhiteSpace c) eqn:E.
    + rewrite IH. simpl. f_equal. f_equal. lia.
    + simpl. f_equal. f_equal. lia.
Qed.

Lemma hyphenate_run (s : jsstring) :
  Spec.hyphenate true s = Spec.hyphenate false (trimStart s).
Proof.
  induction s as [|c s IH]; simpl; [done |].
  destruct (isWhiteSpace c) eqn:E; [done |]. simpl. by rewrite E.
Qed.

Lemma exec_spaces_spec (s : jsstring) : forall n,
  match exec EventModel.whiteSpaceRun n s with
  | None => Spec.hyphenate false s = s
  | Some m =>
      exists pre c s',
        s = pre ++ c :: s' /\
        Spec.hyphenate false s = pre ++ 45%N :: Spec.hyphenate false (f_rest m) /\
        (length (f_rest m) <= length s')%nat /\
        f_start m = (n + length pre)%nat /\
        (f_start m < f_end m)%nat
  end.
Proof.
  induction s as [|c s IH]; intros n; [done |].
  cbn [exec EventModel.whiteSpaceRun Plus rmatch].
  destruct (isWhiteSpace c) eqn:E.
  - rewrite star_space_total. exists [], c, s. cbn [f_rest f_start f_end].
    simpl. rewrite E, hyphenate_run. repeat split; auto with lia.
    clear. induction s as [|c s IH]; simpl; [lia |].
    destruct (isWhiteSpace c); simpl; lia.
  - specialize (IH (S n)). fold EventModel.whiteSpaceRun.
    destruct (exec EventModel.whiteSpaceRun (S n) s) as [m|].
    + destruct IH as (pre & c' & s' & -> & Hh & Hl & Hs & He).
      exists (c :: pre), c', s'. simpl. rewrite E.
      simpl in Hh. rewrite Hh. repeat split; auto with lia.
    + simpl. by rewrite E, IH.
Qed.

Lemma replace_spaces : forall fuel n (s : jsstring),
  (length s < fuel)%nat ->
  replaceFuel fuel EventModel.whiteSpaceRun (lit "-") n s = Spec.hyphenate false s.
Proof.
  induction fuel as [|fuel IH]; intros n s Hlen; [lia |].
  cbn [replaceFuel].
  pose proof (exec_spaces_spec s n) as H.
  destruct (exec EventModel.whiteSpaceRun n s) as [m|]; [| done].
  destruct H as (pre & c & s' & Hs & Hh & Hl & Hst & Hen).
  assert (Nat.eqb (f_end m) (f_start m) = false) as ->
    by (apply Nat.eqb_neq; lia).
  rewrite Hst. replace (n + length pre - n)%nat with (length pre) by lia.
  rewrite IH by (rewrite Hs, length_app in Hlen; simpl in Hlen; lia).
  rewrite Hh. rewrite Hs at 1. by rewrite take_app_length.
Qed.

(** The hook's chain of string methods computes the slug of the spec. *)
Lemma slugify_spec (title : jsstring) :
  EventModel.slugify title = Spec.slug title.
Proof.
  unfold EventModel.slugify, Spec.slug, replaceAll, EventModel.notSlugChar.
  rewrite replace_spaces by lia. rewrite replace_Char by lia.
  do 2 f_equal. apply List.filter_ext. intros c. by rewrite negb_involutive.
Qed.

(** ** Slugs *)

Lemma forallb_rev (q : N -> bool) (s : jsstring) :
  forallb q (rev s) = forallb q s.
Proof.
  induction s as [|c s IH]; simpl; [done |].
  rewrite forallb_app, IH. simpl. destruct (q c), (forallb q s); done.
Qed.

Lemma forallb_trimStart (q : N -> bool) (s : jsstring) :
  forallb q s = true -> forallb q (trimStart s) = true.
Proof.
  induction s as [|c s IH]; simpl; [done |]. intros [Hc Hs]%andb_true_iff.
  destruct (isWhiteSpace c); [auto |]. simpl. by rewrite Hc, Hs.
Qed.

Lemma forallb_trim (q : N -> bool) (s : jsstring) :
  forallb q s = true -> forallb q (trim s) = true.
Proof.
  intros H. unfold trim, trimEnd. rewrite forallb_rev.
  apply forallb_trimStart. rewrite forallb_rev. by apply forallb_trimStart.
Qed.

Lemma hyphenate_letters (s : jsstring) : forall inRun,
  forallb EventModel.slugChar s = true ->
  forallb Spec.slugLetter (Spec.hyphenate inRun s) = true.
Proof.
  induction s as [|c s IH]; intros inRun; simpl; [done |].
  intros [Hc Hs]%andb_true_iff.
  destruct (isWhiteSpace c) eqn:E.
  - destruct inRun; simpl; auto.
  - simpl. rewrite IH by done. by rewrite slugChar_not_space.
Qed.

Lemma slug_letters (title : jsstring) :
  forallb Spec.slugLetter (Spec.slug title) = true.
Proof.
  unfold Spec.slug. apply hyphenate_letters, forallb_trim.
  apply forallb_forall. intros c Hc. by apply List.filter_In in Hc as [_ Hc].
Qed.

Lemma trimStart_no_space (s : jsstring) :
  forallb (fun c => negb (isWhiteSpace c)) s = true -> trimStart s = s.
Proof.
  destruct s as [|c s]; simpl; [done |].
  intros [Hc _]%andb_true_iff. by apply negb_true_iff in Hc as ->.
Qed.

Lemma trim_no_space (s : jsstring) :
  forallb (fun c => negb (isWhiteSpace c)) s = true -> trim s = s.
Proof.
  intros H. unfold trim, trimEnd. rewrite (trimStart_no_space s H).
  rewrite trimStart_no_space by (by rewrite forallb_rev). apply rev_involutive.
Qed.

Lemma hyphenate_no_space (s : jsstring) :
  forallb (fun c => negb (isWhiteSpace c)) s = true ->
  Spec.hyphenate false s = s.
Proof.
  induction s as [|c s IH]; simpl; [done |].
  intros [Hc Hs]%andb_true_iff. apply negb_true_iff in Hc as ->.
  by rewrite IH.
Qed.

Lemma letters_no_space (s : jsstring) :
  forallb Spec.slugLetter s = true ->
  forallb (fun c => negb (isWhiteSpace c)) s = true.
Proof.
  rewrite !forallb_forall. intros H c Hc.
  by rewrite slugLetter_not_space by auto.
Qed.

Lemma letters_lower (s : jsstring) :
  forallb Spec.slugLetter s = true -> toLowerCase s = s.
Proof.
  induction s as [|c s IH]; simpl; [done |].
  intros [Hc Hs]%andb_true_iff.
  unfold toLowerCase in *. simpl. rewrite slugLetter_lower by done.
  simpl. by rewrite IH.
Qed.

Lemma letters_kept (s : jsstring) :
  forallb Spec.slugLetter s = true -> List.filter EventModel.slugChar s = s.
Proof.
  induction s as [|c s IH]; simpl; [done |].
  intros [Hc Hs]%andb_true_iff.
  rewrite slugLetter_slugChar by done. by rewrite IH.
Qed.

Lemma preSave_slug (engineParse : jsstring -> num) (st : DocState)
    (this : EventModel.IEvent) :
  EventModel.slug (fst (EventModel.preSave engineParse st this)) =
  if isNew st || isModified st "title"
  then EventModel.slugify (EventModel.title this)
  else EventModel.slug this.
Proof.
  unfold EventModel.preSave.
  destruct (isNew st || isModified st "title");
    destruct (EventModel.normalizeDate _ _); simpl; try done;
    destruct (EventModel.normalizeTime _); done.
Qed.

(** C2: the slug stored by the hook is the value the spec describes
    (lowercase, strip, trim, one hyphen per run of white space); it depends
    on the title only, it consists of lowercase letters, digits and hyphens,
    and the title "Hello, World!  2024" gives "hello-world-2024". *)
Theorem slug_derivation (engineParse engineParse' : jsstring -> num)
    (st st' : DocState) (this this' : EventModel.IEvent) :
  let stored := EventModel.slug (fst (EventModel.preSave engineParse st this)) in
  let stored' := EventModel.slug (fst (EventModel.preSave engineParse' st' this')) in
  stored = (if isNew st || isModified st "title"
            then Spec.slug (EventModel.title this)
            else EventModel.slug this)
  /\ (isNew st || isModified st "title" = true ->
      isNew st' || isModified st' "title" = true ->
      EventModel.title this = EventModel.title this' -> stored = stored')
  /\ forallb Spec.slugLetter (EventModel.slugify (EventModel.title this)) = true
  /\ EventModel.slugify (lit "Hello, World!  2024") = lit "hello-world-2024".
Proof.
  cbv zeta. rewrite !preSave_slug. split_and!.
  - by rewrite slugify_spec.
  - intros -> -> ->. done.
  - rewrite slugify_spec. apply slug_letters.
  - rewrite slugify_spec. vm_compute. reflexivity.
Qed.

(** C10: hyphens of the title are kept and runs of hyphens are not
    collapsed: a title of slug letters is its own slug, and "a - b" gives
    "a---b"; hyphens may lead, trail and repeat. *)
Theorem slug_keeps_hyphens (title : jsstring) :
  (forallb Spec.slugLetter title = true -> EventModel.slugify title = title)
  /\ EventModel.slugify (lit "a - b") = lit "a---b"
  /\ EventModel.slugify (lit "-a-") = lit "-a-"
  /\ EventModel.slugify (lit "Rust -- Meetup -") = lit "rust----meetup--".
Proof.
  split_and!.
  - intros H. rewrite slugify_spec. unfold Spec.slug.
    rewrite (letters_lower _ H), (letters_kept _ H).
    rewrite trim_no_space by (by apply letters_no_space).
    by apply hyphenate_no_space, letters_no_space.
  - rewrite slugify_spec. vm_compute. reflexivity.
  - rewrite slugify_spec. vm_compute. reflexivity.
  - rewrite slugify_spec. vm_compute. reflexivity.
Qed.

Lemma slug_derivation_witness :
  EventModel.slug
    (fst (EventModel.preSave Samples.strictEngine Samples.created Samples.meetup))
  = EventModel.slug
      (fst (EventModel.preSave (fun _ => Int 0) Samples.created Samples.renamed)).
Proof.
  apply (slug_derivation Samples.strictEngine (fun _ => Int 0)
           Samples.created Samples.created Samples.meetup Samples.renamed);
    reflexivity.
Defined.

Lemma slug_keeps_hyphens_witness :
  EventModel.slugify (lit "a--b-") = lit "a--b-".
Proof.
  apply (proj1 (slug_keeps_hyphens (lit "a--b-"))). reflexivity.
Defined.

(** ** What the Event hook leaves alone *)

(** C8: a save of an existing event whose title was not modified leaves
    the slug as it was, and the hook never touches a field other than slug,
    date and time (the timestamps included), whether it throws or not. *)
Theorem slug_only_regenerated_on_title_change
    (engineParse : jsstring -> num) (st : DocState) (this : EventModel.IEvent) :
  let after := fst (EventModel.preSave engineParse st this) in
  (isNew st = false -> isModified st "title" = false ->
   EventModel.slug after = EventModel.slug this)
  /\ EventModel.title after = EventModel.title this
  /\ EventModel.description after = EventModel.description this
  /\ EventModel.overview after = EventModel.overview this
  /\ EventModel.image after = EventModel.image this
  /\ EventModel.venue after = EventModel.venue this
  /\ EventModel.location after = EventModel.location this
  /\ EventModel.mode after = EventModel.mode this
  /\ EventModel.audience after = EventModel.audience this
  /\ EventModel.agenda after = EventModel.agenda this
  /\ EventModel.organizer after = EventModel.organizer this
  /\ EventModel.tags after = EventModel.tags this
  /\ EventModel.createdAt after = EventModel.createdAt this
  /\ EventModel.updatedAt after = EventModel.updatedAt this.
Proof.
  cbv zeta. split.
  - intros Hn Hm. by rewrite preSave_slug, Hn, Hm.
  - unfold EventModel.preSave.
    destruct (isNew st || isModified st "title");
      destruct (EventModel.normalizeDate _ _); simpl;
      try destruct (EventModel.normalizeTime _); simpl; split_and!; reflexivity.
Qed.

Lemma slug_only_regenerated_on_title_change_witness :
  EventModel.slug
    (fst (EventModel.preSave Samples.strictEngine Samples.loaded Samples.renamed))
  = lit "custom".
Proof.
  apply (proj1 (slug_only_regenerated_on_title_change
                  Samples.strictEngine Samples.loaded Samples.renamed));
    reflexivity.
Defined.

(** ** The cached connection *)

Import Mongodb.

(** C7, as the code has it: a failed attempt stays in the cache, and the
    next call meets the same rejection without a new attempt. *)
Theorem failed_attempt_stays_cached (settle : nat -> settled)
    (p p' : Process) (e : N) :
  connectToDatabase settle p = (p', inl e) ->
  promise (cached p') <> None
  /\ connectToDatabase settle p' = (p', inl e)
  /\ attempts (fst (connectToDatabase settle p')) = attempts p'.
Proof.
  unfold connectToDatabase. intros H.
  destruct (conn (cached p)) as [c|] eqn:Ec; [done |].
  destruct (promise (cached p)) as [a|] eqn:Ep.
  - destruct (settle a) eqn:Es; [done |]. injection H as <- <-.
    rewrite Ec, Ep, Es. done.
  - destruct (settle (attempts p)) eqn:Es; [done |]. injection H as <- <-.
    simpl. rewrite Es. done.
Qed.

Lemma failed_attempt_stays_cached_witness :
  promise (cached (fst (connectToDatabase Samples.flaky Samples.fresh))) <> None
  /\ connectToDatabase Samples.flaky
       (fst (connectToDatabase Samples.flaky Samples.fresh))
     = (fst (connectToDatabase Samples.flaky Samples.fresh), inl 7%N)
  /\ attempts
       (fst (connectToDatabase Samples.flaky
               (fst (connectToDatabase Samples.flaky Samples.fresh))))
     = attempts (fst (connectToDatabase Samples.flaky Samples.fresh)).
Proof.
  apply (failed_attempt_stays_cached Samples.flaky Samples.fresh). reflexivity.
Defined.

(** C7 as stated fails: the first attempt is refused, a second one would
    be accepted, yet the cache still holds the refused attempt and the
    second call makes no attempt of its own. *)
Lemma failed_attempt_not_cleared :
  let first := connectToDatabase Samples.flaky Samples.fresh in
  let second := connectToDatabase Samples.flaky (fst first) in
  snd first = inl 7%N
  /\ promise (cached (fst first)) = Some 0%nat
  /\ Samples.flaky (attempts (fst first)) = Fulfilled 1%N
  /\ snd second = inl 7%N
  /\ attempts (fst second) = attempts (fst first).
Proof. cbv zeta. split_and!; reflexivity. Qed.

(** ** Bookings *)

Import BookingModel.

Ltac run_M :=
  unfold save, validate, call, handed_over, try_catch, Event_findById,
    Event_exists, mbind, M_bind, bind, mret, M_ret, ret, throw in *.

Ltac simpl_db :=
  cbn [bookings events reachable lookups log_lookup set_bookings
       _id eventId email createdAt updatedAt stamp negb andb orb
       emailValidator preSave indexes BookingSchema bookingSchema].

(** Validation and the hooks never write to the Booking collection. *)
Lemma validate_bookings sch doc db :
  validate sch doc db
  = (db, if emailValidator sch (email doc) then inr tt
         else inl (ValidationError (InvalidEmail (email doc)))).
Proof. run_M. by destruct (emailValidator sch (email doc)). Qed.

(** Outside the guard the hook only calls [next]. *)
Lemma BookingSchema_preSave_skips next st doc db :
  isNew st = false -> isModified st "eventId" = false ->
  BookingSchema_preSave next st doc db
  = (db, match next with
         | Callback => inr tt
         | NotAFunction => inl TypeError
         end).
Proof.
  intros Hn Hm. unfold BookingSchema_preSave. run_M. rewrite Hn, Hm.
  by destruct next.
Qed.

(** Inside the guard the hook makes its lookup; what comes of it reaches
    the caller only through a [next] that can be called. *)
Lemma BookingSchema_preSave_checks next st doc db :
  isModified st "eventId" || isNew st = true ->
  BookingSchema_preSave next st doc db =
  (log_lookup (eventId doc) db,
   match next with
   | Callback =>
       if reachable db then
         match events db !! eventId doc with
         | Some _ => inr tt
         | None => inl (ValidationError (EventDoesNotExist (eventId doc)))
         end
       else inl (ValidationError InvalidIdOrDatabaseError)
   | NotAFunction => inl TypeError
   end).
Proof.
  intros H. unfold BookingSchema_preSave. run_M. rewrite H.
  destruct next, (reachable db); try done;
    by destruct (events db !! eventId doc).
Qed.

Lemma bookingSchema_preSave_checks st doc db :
  bookingSchema_preSave st doc db =
  (log_lookup (eventId doc) db,
   if reachable db then
     match events db !! eventId doc with
     | Some _ => inr tt
     | None => inl (PlainError (ReferencedEventDoesNotExist (eventId doc)))
     end
   else inl DatabaseError).
Proof.
  unfold bookingSchema_preSave. run_M.
  destruct (reachable db); [| done].
  destruct (events db !! eventId doc); done.
Qed.

Lemma persist_frame ixs st doc db :
  lookups (fst (persist ixs st doc db)) = lookups db
  /\ events (fst (persist ixs st doc db)) = events db
  /\ (forall e, snd (persist ixs st doc db) = inl e ->
      fst (persist ixs st doc db) = db).
Proof.
  unfold persist.
  destruct (reachable db); simpl; [| done].
  destruct (isNew st); destruct (bookings db !! _id doc); simpl; try done;
    destruct (duplicateOn _ _ _); simpl; done.
Qed.

(** C5, as the code has it: when the booking is not new and its eventId
    was not modified, the guarded hook queries nothing and leaves the
    database as it is, and lets the save go on where Mongoose hands it the
    callback; the whole save makes no existence lookup against the Event
    collection. *)
Theorem unchanged_eventId_skips_lookup (validator : jsstring -> bool)
    (next : hookArg) (now : Z) (st : DocState) (booking : IBooking) (db : Db) :
  isNew st = false -> isModified st "eventId" = false ->
  fst (BookingSchema_preSave next st booking db) = db
  /\ (next = Callback ->
      snd (BookingSchema_preSave next st booking db) = inr tt)
  /\ lookups (fst (save (BookingSchema validator next) now st booking db))
     = lookups db.
Proof.
  intros Hn Hm. rewrite BookingSchema_preSave_skips by done.
  split; [done |]. split; [by intros -> |].
  unfold save, mbind, M_bind, bind. rewrite validate_bookings.
  cbn [emailValidator BookingSchema preSave indexes].
  destruct (validator (email booking)); [| done].
  rewrite BookingSchema_preSave_skips by done.
  destruct next; [| done]. by rewrite (proj1 (persist_frame _ _ _ _)).
Qed.

Lemma unchanged_eventId_skips_lookup_witness :
  fst (BookingSchema_preSave Callback Samples.emailChanged
         Samples.keptElsewhere Samples.orphaned) = Samples.orphaned
  /\ (Callback = Callback ->
      snd (BookingSchema_preSave Callback Samples.emailChanged
             Samples.keptElsewhere Samples.orphaned) = inr tt)
  /\ lookups (fst (save (BookingSchema Samples.anyEmail Callback) 5
                     Samples.emailChanged Samples.keptElsewhere
                     Samples.orphaned))
     = lookups Samples.orphaned.
Proof.
  apply (unchanged_eventId_skips_lookup Samples.anyEmail Callback 5
           Samples.emailChanged Samples.keptElsewhere Samples.orphaned);
    reflexivity.
Defined.

(** C5 as stated fails under the hook of booking.model.ts: a stored
    booking saved again with a new address, its eventId untouched, has its
    event looked up all the same. *)
Lemma unchanged_eventId_looked_up :
  isNew Samples.emailChanged = false
  /\ isModified Samples.emailChanged "eventId" = false
  /\ lookups Samples.announced = []
  /\ lookups (fst (bookingSchema_preSave Samples.emailChanged
                     Samples.keptElsewhere Samples.announced)) = [7%N]
  /\ lookups (fst (save (bookingSchema Samples.anyEmail) 5
                     Samples.emailChanged Samples.keptElsewhere
                     Samples.announced)) = [7%N].
Proof. split_and!; vm_compute; reflexivity. Qed.

(** C4, as the code has it: when no stored event has the booking's
    eventId, a save of a booking that is new or whose eventId was modified
    fails under the guarded hook and writes nothing, whatever the email
    validator answers, and where Mongoose hands the hook the callback the
    failure is a validation error; under the hook of booking.model.ts every
    save of such a booking fails and writes nothing: with the field
    validation error for a bad address, else with the hook's own error once
    the lookup gets through. *)
Theorem missing_event_rejects_save (validator : jsstring -> bool)
    (next : hookArg) (now : Z) (st : DocState) (booking : IBooking) (db : Db) :
  events db !! eventId booking = None ->
  (isModified st "eventId" || isNew st = true ->
   exists e,
     snd (save (BookingSchema validator next) now st booking db) = inl e
     /\ (next = Callback -> exists why, e = ValidationError why)
     /\ bookings (fst (save (BookingSchema validator next) now st booking db))
        = bookings db)
  /\ snd (save (bookingSchema validator) now st booking db)
     = inl (if negb (validator (email booking))
            then ValidationError (InvalidEmail (email booking))
            else if reachable db
                 then PlainError (ReferencedEventDoesNotExist (eventId booking))
                 else DatabaseError)
  /\ bookings (fst (save (bookingSchema validator) now st booking db))
     = bookings db.
Proof.
  intros Hmiss. split; [intros Hg |].
  - unfold save, mbind, M_bind, bind. rewrite validate_bookings.
    cbn [emailValidator BookingSchema preSave indexes].
    destruct (validator (email booking)); [| by eauto].
    rewrite BookingSchema_preSave_checks by done. rewrite Hmiss.
    destruct next; [destruct (reachable db) |]; eexists;
      (split; [done |]); (split; [| done]); (done || by eauto).
  - unfold save, mbind, M_bind, bind. rewrite validate_bookings.
    cbn [emailValidator bookingSchema preSave indexes].
    destruct (validator (email booking)); cbn [negb]; [| done].
    rewrite bookingSchema_preSave_checks, Hmiss.
    by destruct (reachable db).
Qed.

Lemma missing_event_rejects_save_witness :
  (exists e,
     snd (save (BookingSchema Samples.anyEmail Callback) 5 Samples.created
            Samples.kept Samples.orphaned) = inl e
     /\ (Callback = Callback -> exists why, e = ValidationError why)
     /\ bookings (fst (save (BookingSchema Samples.anyEmail Callback) 5
                         Samples.created Samples.kept Samples.orphaned))
        = bookings Samples.orphaned)
  /\ snd (save (bookingSchema Samples.anyEmail) 5 Samples.created Samples.kept
            Samples.orphaned)
     = inl (if negb (Samples.anyEmail (email Samples.kept))
            then ValidationError (InvalidEmail (email Samples.kept))
            else if reachable Samples.orphaned
                 then PlainError
                        (ReferencedEventDoesNotExist (eventId Samples.kept))
                 else DatabaseError)
  /\ bookings (fst (save (bookingSchema Samples.anyEmail) 5 Samples.created
                      Samples.kept Samples.orphaned))
     = bookings Samples.orphaned.
Proof.
  destruct (missing_event_rejects_save Samples.anyEmail Callback 5
              Samples.created Samples.kept Samples.orphaned) as [H1 H2];
    [reflexivity |].
  split; [apply H1; reflexivity | exact H2].
Defined.

(** C4 as stated fails under the guarded hook, whatever Mongoose hands it.
    Handed the callback, the hook lets a stored booking whose event is gone
    be saved again with a new address.  Handed no callback, it rejects a
    new booking for a missing event, its address valid, with the TypeError
    of the call of [next], not with a validation error. *)
Lemma missing_event_under_guarded_hook :
  events Samples.orphaned !! eventId Samples.keptElsewhere = None
  /\ snd (save (BookingSchema Samples.anyEmail Callback) 5
            Samples.emailChanged Samples.keptElsewhere Samples.orphaned)
     = inr tt
  /\ email <$> bookings (fst (save (BookingSchema Samples.anyEmail Callback) 5
                                Samples.emailChanged Samples.keptElsewhere
                                Samples.orphaned)) !! 1%N
     = Some (lit "ada@example.org")
  /\ events Samples.orphaned !! eventId Samples.again = None
  /\ snd (save (BookingSchema Samples.anyEmail NotAFunction) 5
            Samples.created Samples.again Samples.orphaned)
     = inl TypeError.
Proof. split_and!; vm_compute; reflexivity. Qed.

(** *** One booking per event and address *)













(** ** Decimal digits *)

Section Digits.
Local Open Scope Z_scope.

Lemma digitChar_digit d : 0 <= d <= 9 -> isDigit (digitChar d) = true.
Proof. intros H. unfold isDigit, digitChar. class_props. lia. Qed.

Lemma digitVal_digitChar d : 0 <= d <= 9 -> digitVal (digitChar d) = d.
Proof. intros H. unfold digitVal, digitChar. lia. Qed.

Lemma digitVal_range c : isDigit c = true -> 0 <= digitVal c <= 9.
Proof. unfold isDigit, digitVal. class_props. lia. Qed.

Lemma digitChar_digitVal c : isDigit c = true -> digitChar (digitVal c) = c.
Proof. unfold isDigit, digitVal, digitChar. class_props. lia. Qed.

Lemma decimalFuel_acc fuel : forall z acc,
  decimalFuel fuel z acc = decimalFuel fuel z [] ++ acc.
Proof.
  induction fuel as [|fuel IH]; intros z acc; simpl; [done |].
  destruct (z <? 10); [done |].
  rewrite (IH _ (_ :: acc)), (IH _ [_]). by rewrite <- app_assoc.
Qed.

Lemma decimalFuel_enough fuel : forall fuel' z acc,
  0 <= z -> (Z.to_nat z < fuel)%nat -> (Z.to_nat z < fuel')%nat ->
  decimalFuel fuel z acc = decimalFuel fuel' z acc.
Proof.
  induction fuel as [|fuel IH]; intros fuel' z acc Hz H1 H2; [lia |].
  destruct fuel' as [|fuel']; [lia |]. simpl.
  destruct (Z.ltb_spec z 10); [done |].
  assert (0 <= z / 10 < z) by (split; [apply Z.div_pos | apply Z.div_lt]; lia).
  apply IH; lia.
Qed.

Lemma decimal_small z : 0 <= z < 10 -> decimal z = [digitChar z].
Proof.
  intros H. unfold decimal. simpl.
  destruct (Z.ltb_spec z 10); [| lia]. by rewrite Z.mod_small.
Qed.

Lemma decimal_step z :
  10 <= z -> decimal z = decimal (z / 10) ++ [digitChar (z mod 10)].
Proof.
  intros H. unfold decimal at 1. simpl.
  destruct (Z.ltb_spec z 10); [lia |].
  assert (0 <= z / 10 < z) by (split; [apply Z.div_pos | apply Z.div_lt]; lia).
  rewrite decimalFuel_acc. f_equal.
  unfold decimal. apply decimalFuel_enough; lia.
Qed.

Lemma digitsValue_snoc ds c :
  digitsValue (ds ++ [c]) = 10 * digitsValue ds + digitVal c.
Proof. unfold digitsValue. by rewrite fold_left_app. Qed.

Lemma decimal_spec (n : nat) : forall z,
  0 <= z < Z.of_nat n ->
  digitsValue (decimal z) = z /\ forallb isDigit (decimal z) = true
  /\ decimal z <> [].
Proof.
  induction n as [|n IH]; intros z Hz; [lia |].
  destruct (Z.ltb_spec z 10).
  - rewrite decimal_small by lia. unfold digitsValue. simpl.
    rewrite digitVal_digitChar, digitChar_digit by lia. split_and!; [lia | done | done].
  - rewrite decimal_step by lia.
    assert (0 <= z / 10 < z) by (split; [apply Z.div_pos | apply Z.div_lt]; lia).
    destruct (IH (z / 10)) as (Hv & Hd & Hne); [lia |].
    pose proof (Z.mod_pos_bound z 10).
    rewrite digitsValue_snoc, Hv, digitVal_digitChar by lia.
    rewrite forallb_app, Hd. simpl. rewrite digitChar_digit by lia.
    split_and!; [| done | by destruct (decimal (z / 10))].
    pose proof (Z.div_mod z 10). lia.
Qed.

Lemma digitsValue_zeros k ds :
  digitsValue (repeat 48%N k ++ ds) = digitsValue ds.
Proof.
  unfold digitsValue. rewrite fold_left_app. f_equal.
  induction k as [|k IH]; simpl; [done |]. exact IH.
Qed.

Lemma digitsValue_pad k z : 0 <= z -> digitsValue (pad k z) = z.
Proof.
  intros Hz. unfold pad, padStart0. rewrite digitsValue_zeros.
  apply (decimal_spec (S (Z.to_nat z))). lia.
Qed.

Lemma pad_digits k z : 0 <= z -> forallb isDigit (pad k z) = true.
Proof.
  intros Hz. unfold pad, padStart0. rewrite forallb_app.
  rewrite (proj1 (proj2 (decimal_spec (S (Z.to_nat z)) z ltac:(lia)))).
  rewrite andb_true_r. apply forallb_forall.
  intros c Hc. by apply repeat_spec in Hc as ->.
Qed.

Lemma decimal_length_le (k : nat) : forall z,
  0 <= z < 10 ^ Z.of_nat (S k) -> (length (decimal z) <= S k)%nat.
Proof.
  induction k as [|k IH]; intros z Hz.
  - rewrite decimal_small by (simpl in Hz; lia). simpl. lia.
  - destruct (Z.ltb_spec z 10).
    + rewrite decimal_small by lia. simpl. lia.
    + rewrite decimal_step, length_app by lia. simpl.
      assert (0 <= z / 10 < 10 ^ Z.of_nat (S k)).
      { split; [apply Z.div_pos; lia |].
        apply Z.div_lt_upper_bound; [lia |].
        replace (Z.of_nat (S (S k))) with (1 + Z.of_nat (S k)) in Hz by lia.
        rewrite Z.pow_add_r in Hz by lia. lia. }
      specialize (IH _ H0). lia.
Qed.

Lemma pad_length (k : nat) z :
  0 <= z < 10 ^ Z.of_nat (S k) -> length (pad (S k) z) = S k.
Proof.
  intros Hz. unfold pad, padStart0.
  pose proof (decimal_length_le k z Hz).
  rewrite length_app, repeat_length. lia.
Qed.

End Digits.

(** ** The time pattern *)

Import EventModel.

Arguments isDigit : simpl never.
Arguments isWhiteSpace : simpl never.
Arguments letter : simpl never.
Arguments timeTail : simpl never.
Arguments timeEnd : simpl never.

Lemma letter_not_space u c :
  (u = 65 \/ u = 77 \/ u = 80)%N -> letter u c = true -> isWhiteSpace c = false.
Proof.
  intros Hu H. destruct (isWhiteSpace c) eqn:E; [exfalso | done]. class_solve.
Qed.

Lemma letter_not_colon u c :
  (u = 65 \/ u = 77 \/ u = 80)%N -> letter u c = true -> charIs 58 c = false.
Proof.
  intros Hu H. destruct (charIs 58 c) eqn:E; [exfalso | done]. class_solve.
Qed.

Lemma letter_P_not_A c : letter 80 c = true -> letter 65 c = false.
Proof.
  intros H. destruct (letter 65 c) eqn:E; [exfalso | done]. class_solve.
Qed.

Lemma space_not_colon c : isWhiteSpace c = true -> charIs 58 c = false.
Proof.
  intros H. destruct (charIs 58 c) eqn:E; [exfalso | done]. class_solve.
Qed.

Lemma digit_not_colon c : isDigit c = true -> charIs 58 c = false.
Proof.
  intros H. destruct (charIs 58 c) eqn:E; [exfalso | done]. class_solve.
Qed.

Lemma colon_is c : charIs 58 c = true -> c = 58%N.
Proof. unfold charIs. by intros ?%N.eqb_eq. Qed.

(** Greedy repetition takes the whole gap when the rest then matches. *)
Lemma star_gap {R} (k : @cont R) caps (rest : jsstring) x :
  forall (gap : jsstring) n,
    forallb isWhiteSpace gap = true ->
    match rest with c :: _ => isWhiteSpace c = false | [] => True end ->
    k (n + length gap)%nat rest caps = Some x ->
    star isWhiteSpace n (gap ++ rest) caps k = Some x.
Proof.
  induction gap as [|g gap IH]; intros n Hg Hr Hk.
  - simpl in *. rewrite Nat.add_0_r in Hk.
    destruct rest as [|c rest]; simpl; [done |]. by rewrite Hr.
  - apply andb_true_iff in Hg as [Hg1 Hg2]. simpl. rewrite Hg1.
    rewrite (IH (S n)); [done | done | done |].
    simpl in Hk. by replace (S n + length gap)%nat with (n + S (length gap))%nat by lia.
Qed.

Lemma timeEnd_matches mer m n caps :
  Spec.wellFormedMarker mer m = true ->
  rmatch timeEnd n (Spec.markerText mer) caps
    (fun n' s' caps' => Some (Found 0 n' s' caps'))
  = Some (Found 0 (n + length (Spec.markerText mer)) []
            (match mer with Some (_, txt) => [(3%nat, txt)] | None => [] end ++ caps)).
Proof.
  unfold Spec.wellFormedMarker. destruct mer as [[gap txt]|], m as [w|]; try done.
  - intros [Hgap Hsp]%andb_true_iff.
    destruct txt as [|a [|b [|]]]; try done. simpl in Hsp.
    apply andb_true_iff in Hsp as [Ha Hb].
    unfold timeEnd, meridiemPart, Opt.
    cbn [rmatch Spec.markerText].
    erewrite star_gap; [done | done | |].
    + destruct w; [eapply (letter_not_space 65) | eapply (letter_not_space 80)];
        try exact Ha; lia.
    + cbn beta iota.
      replace (S (S (n + length gap)) - (n + length gap))%nat with 2%nat by lia.
      rewrite length_app. cbn [length take app].
      replace (n + (length gap + 2))%nat with (S (S (n + length gap))) by lia.
      destruct w.
      * by rewrite Ha, Hb.
      * by rewrite (letter_P_not_A _ Ha), Ha, Hb.
  - intros _. cbn. by rewrite Nat.add_0_r.
Qed.

Lemma timeTail_matches secs mer m n caps :
  Spec.wellFormedSeconds secs = true ->
  Spec.wellFormedMarker mer m = true ->
  rmatch timeTail n (Spec.secondsText secs ++ Spec.markerText mer) caps
    (fun n' s' caps' => Some (Found 0 n' s' caps'))
  = Some (Found 0
            (n + length (Spec.secondsText secs ++ Spec.markerText mer)) []
            (match mer with Some (_, txt) => [(3%nat, txt)] | None => [] end ++ caps)).
Proof.
  intros Hs Hm. unfold timeTail, secondsPart, Opt.
  destruct secs as [ss|].
  - simpl in Hs. apply andb_true_iff in Hs as [Hl Hd].
    destruct ss as [|s1 [|s2 [|]]]; try done.
    simpl in Hd. apply andb_true_iff in Hd as [H1 H2].
    apply andb_true_iff in H2 as [H2 _].
    cbn [rmatch Spec.secondsText app colon digit]. rewrite H1, H2.
    change (charIs 58 58) with true. cbn beta iota.
    rewrite (timeEnd_matches _ _ _ _ Hm). do 2 f_equal. simpl. lia.
  - cbn [rmatch Spec.secondsText app colon digit].
    rewrite (timeEnd_matches _ _ _ _ Hm).
    assert (match Spec.markerText mer with
            | [] => True
            | c :: _ => charIs 58 c = false
            end) as Hc.
    { unfold Spec.wellFormedMarker in Hm.
      destruct mer as [[gap txt]|], m as [w|]; try done.
      apply andb_true_iff in Hm as [Hgap Hsp].
      destruct txt as [|a [|b [|]]]; try done. simpl in Hsp.
      apply andb_true_iff in Hsp as [Ha Hb].
      destruct gap as [|g gap]; simpl.
      - destruct w; [eapply (letter_not_colon 65) | eapply (letter_not_colon 80)];
          try exact Ha; lia.
      - simpl in Hgap. apply andb_true_iff in Hgap as [Hg _].
        by apply space_not_colon. }
    destruct (Spec.markerText mer) as [|c rest]; [done |]. by rewrite Hc.
Qed.

Lemma exec_anchored (s : jsstring) : forall n,
  exec timePattern (S n) s = None.
Proof. induction s as [|c s IH]; intros n; cbn; [done | apply IH]. Qed.

Lemma str_match_anchored (s : jsstring) :
  str_match timePattern s
  = rmatch timePattern 0 s [] (fun n' s' caps' => Some (Found 0 n' s' caps')).
Proof.
  unfold str_match. destruct s as [|c s]; cbn [exec].
  - by destruct (rmatch _ _ _ _ _).
  - rewrite exec_anchored. by destruct (rmatch _ _ _ _ _).
Qed.

(** The pattern accepts every text of the spec's form, with the hour, the
    minute and the marker as its captures. *)
Lemma timePattern_accepts hh mm secs mer m :
  Spec.wellFormedTime hh mm secs mer m = true ->
  str_match timePattern (Spec.timeText hh mm secs mer)
  = Some (Found 0 (length (Spec.timeText hh mm secs mer)) []
            (Spec.timeCaps hh mm mer)).
Proof.
  unfold Spec.wellFormedTime.
  intros [[[[Hhl Hhd]%andb_true_iff [Hml Hmd]%andb_true_iff]%andb_true_iff
            Hs]%andb_true_iff Hm]%andb_true_iff.
  rewrite str_match_anchored. unfold Spec.timeText, Spec.timeCaps.
  destruct mm as [|m1 [|m2 [|]]]; try done.
  simpl in Hmd. apply andb_true_iff in Hmd as [Hm1 Hm2].
  apply andb_true_iff in Hm2 as [Hm2 _].
  unfold timePattern, hourPart, minutePart, Opt.
  destruct hh as [|h1 [|h2 [|]]]; try done.
  - simpl in Hhd. apply andb_true_iff in Hhd as [Hh1 _].
    cbn [rmatch app colon digit Nat.eqb]. rewrite Hh1.
    change (isDigit 58) with false. change (charIs 58 58) with true.
    cbn beta iota. rewrite Hm1, Hm2. cbn [Nat.sub take].
    rewrite (timeTail_matches _ _ _ _ _ Hs Hm). do 2 f_equal.
  - simpl in Hhd. apply andb_true_iff in Hhd as [Hh1 Hh2].
    apply andb_true_iff in Hh2 as [Hh2 _].
    cbn [rmatch app colon digit Nat.eqb]. rewrite Hh1, Hh2.
    change (charIs 58 58) with true.
    cbn beta iota. rewrite Hm1, Hm2. cbn [Nat.sub take].
    rewrite (timeTail_matches _ _ _ _ _ Hs Hm). do 2 f_equal.
Qed.

(** ** Time normalization *)

Lemma takeWhile_all (q : N -> bool) (s : jsstring) :
  forallb q s = true -> takeWhile q s = s.
Proof.
  induction s as [|c s IH]; simpl; [done |].
  intros [Hc Hs]%andb_true_iff. by rewrite Hc, IH.
Qed.

Lemma parseInt10_digits (ds : jsstring) :
  ds <> [] -> forallb isDigit ds = true -> parseInt10 ds = Int (digitsValue ds).
Proof.
  intros Hne Hd. unfold parseInt10.
  destruct ds as [|c ds]; [done |].
  pose proof Hd as Hd'. simpl in Hd'. apply andb_true_iff in Hd' as [Hc _].
  cbn [trimStart]. rewrite (digit_not_space _ Hc).
  assert (charIs 45 c = false) as -> by
    (destruct (charIs 45 c) eqn:E; [exfalso; class_solve | done]).
  assert (charIs 43 c = false) as -> by
    (destruct (charIs 43 c) eqn:E; [exfalso; class_solve | done]).
  rewrite takeWhile_all by done. done.
Qed.

Lemma upper_letter u c :
  (u = 65 \/ u = 77 \/ u = 80)%N -> letter u c = true -> upperUnit c = u.
Proof.
  intros Hu H. unfold upperUnit.
  destruct (isLowerAZ c) eqn:E; class_solve.
Qed.

Lemma pad2 h :
  (0 <= h < 100)%Z -> pad 2 h = [digitChar (h / 10); digitChar (h mod 10)].
Proof.
  intros Hh. unfold pad, padStart0. destruct (Z.ltb_spec h 10).
  - rewrite decimal_small by lia. simpl.
    rewrite Z.div_small, Z.mod_small by lia. done.
  - rewrite decimal_step by lia.
    assert (0 <= h / 10 < 10)%Z
      by (split; [apply Z.div_pos | apply Z.div_lt_upper_bound]; lia).
    rewrite decimal_small by lia. done.
Qed.

Lemma digitsValue_nonneg (ds : jsstring) :
  forallb isDigit ds = true -> (0 <= digitsValue ds)%Z.
Proof.
  induction ds as [|c ds IH] using rev_ind; [done |].
  rewrite forallb_app, digitsValue_snoc. simpl.
  intros [Hd [Hc _]%andb_true_iff]%andb_true_iff.
  pose proof (digitVal_range _ Hc). specialize (IH Hd). lia.
Qed.

Lemma to24_nonneg m h : (0 <= h)%Z -> (0 <= Spec.to24 m h)%Z.
Proof.
  intros Hh. unfold Spec.to24. destruct m as [[]|];
    try destruct (Z.eqb_spec h 12); lia.
Qed.

Lemma clock_written (time mm : jsstring) (h : Z) (minuteOut : bool) :
  (0 <= h)%Z ->
  (if num_gt (Int h) 23 || minuteOut
   then Throw (TimeOutOfRange time)
   else Ok (padStart0 2 (num_toString (Int h)) ++ lit ":" ++ mm))
  = (if (23 <? h)%Z || minuteOut
     then Throw (TimeOutOfRange time)
     else Ok (Spec.clock h mm)).
Proof.
  intros Hh. cbn [num_gt]. destruct (Z.ltb_spec 23 h); [done |].
  destruct minuteOut; [done |]. cbn [orb num_toString].
  destruct (Z.ltb_spec h 0); [lia |].
  change (padStart0 2 (decimal h)) with (pad 2 h). by rewrite pad2 by lia.
Qed.

(** What the hook does with a text of the spec's form. *)
Lemma normalizeTime_wellFormed (time hh mm : jsstring) secs mer m :
  trim time = Spec.timeText hh mm secs mer ->
  Spec.wellFormedTime hh mm secs mer m = true ->
  normalizeTime time =
  let hour := Spec.to24 m (digitsValue hh) in
  if ((23 <? hour) || (59 <? digitsValue mm))%Z
  then Throw (TimeOutOfRange time)
  else Ok (Spec.clock hour mm).
Proof.
  intros Ht Hwf. unfold normalizeTime.
  rewrite Ht, (timePattern_accepts _ _ _ _ _ Hwf).
  unfold Spec.wellFormedTime in Hwf.
  apply andb_true_iff in Hwf as [[[[Hhl Hhd]%andb_true_iff
    [Hml Hmd]%andb_true_iff]%andb_true_iff Hs]%andb_true_iff Hm].
  assert (hh <> []) as Hhne by (by destruct hh).
  assert (mm <> []) as Hmne by (by destruct mm).
  pose proof (digitsValue_nonneg _ Hhd) as Hh0.
  assert (group 1 (Found 0 (length (Spec.timeText hh mm secs mer)) []
                     (Spec.timeCaps hh mm mer)) = hh) as ->
    by (unfold group, Spec.timeCaps; by destruct mer as [[]|]).
  assert (group 2 (Found 0 (length (Spec.timeText hh mm secs mer)) []
                     (Spec.timeCaps hh mm mer)) = mm) as ->
    by (unfold group, Spec.timeCaps; by destruct mer as [[]|]).
  rewrite !parseInt10_digits by done.
  cbn [f_caps]. cbv zeta.
  unfold Spec.wellFormedMarker in Hm.
  destruct mer as [[gap txt]|], m as [w|]; try done.
  - apply andb_true_iff in Hm as [Hgap Hsp].
    destruct txt as [|a [|b [|]]]; try done. simpl in Hsp.
    apply andb_true_iff in Hsp as [Ha Hb].
    unfold Spec.timeCaps. cbn [capture app Nat.eqb option_map toUpperCase map].
    rewrite (upper_letter 77 b) by (auto; lia).
    destruct w.
    + rewrite (upper_letter 65 a) by (auto; lia).
      change (strEq [65%N; 77%N] (lit "PM")) with false.
      change (strEq [65%N; 77%N] (lit "AM")) with true.
      cbn [andb num_is num_gt Spec.to24].
      destruct (Z.eqb_spec (digitsValue hh) 12); by apply clock_written.
    + rewrite (upper_letter 80 a) by (auto; lia).
      change (strEq [80%N; 77%N] (lit "PM")) with true.
      change (strEq [80%N; 77%N] (lit "AM")) with false.
      cbn [andb num_is num_gt Spec.to24 negb num_add].
      destruct (Z.eqb_spec (digitsValue hh) 12); cbn [negb num_add];
        apply clock_written; lia.
  - unfold Spec.timeCaps. cbn [capture app Nat.eqb option_map andb Spec.to24].
    by apply clock_written.
Qed.

Lemma trimStart_lead (lead s : jsstring) :
  forallb isWhiteSpace lead = true -> trimStart (lead ++ s) = trimStart s.
Proof.
  induction lead as [|c lead IH]; simpl; [done |].
  intros [Hc Hl]%andb_true_iff. rewrite Hc. auto.
Qed.

Lemma trim_between (lead trail inner : jsstring) (c z : N) :
  forallb isWhiteSpace lead = true -> forallb isWhiteSpace trail = true ->
  isWhiteSpace c = false -> isWhiteSpace z = false ->
  trim (lead ++ (c :: inner ++ [z]) ++ trail) = c :: inner ++ [z].
Proof.
  intros Hl Ht Hc Hz. unfold trim, trimEnd.
  rewrite trimStart_lead by done. cbn [app trimStart]. rewrite Hc.
  change (c :: (inner ++ [z]) ++ trail) with ((c :: inner ++ [z]) ++ trail).
  rewrite rev_app_distr, trimStart_lead by (by rewrite forallb_rev).
  change (c :: inner ++ [z]) with ((c :: inner) ++ [z]).
  rewrite rev_app_distr. cbn [rev app trimStart]. rewrite Hz.
  change (z :: rev inner ++ [c]) with (rev [z] ++ rev (c :: inner)).
  by rewrite <- rev_app_distr, rev_involutive.
Qed.

(** Around the text, white space is of no account. *)
Lemma trim_timeText (lead trail hh mm : jsstring) secs mer m :
  Spec.wellFormedTime hh mm secs mer m = true ->
  forallb isWhiteSpace lead = true -> forallb isWhiteSpace trail = true ->
  trim (lead ++ Spec.timeText hh mm secs mer ++ trail)
  = Spec.timeText hh mm secs mer.
Proof.
  intros Hwf Hl Ht. unfold Spec.wellFormedTime in Hwf.
  apply andb_true_iff in Hwf as [[[[Hhl Hhd]%andb_true_iff
    [Hml Hmd]%andb_true_iff]%andb_true_iff Hs]%andb_true_iff Hm].
  destruct hh as [|h1 hh]; [done |].
  destruct mm as [|m1 [|m2 [|]]]; try done.
  simpl in Hhd, Hmd.
  apply andb_true_iff in Hhd as [Hh1 _].
  apply andb_true_iff in Hmd as [_ [Hm2 _]%andb_true_iff].
  assert (exists inner z, isWhiteSpace z = false /\
            Spec.timeText (h1 :: hh) [m1; m2] secs mer = h1 :: inner ++ [z])
    as (inner & z & Hz & ->).
  { unfold Spec.timeText, Spec.wellFormedMarker, Spec.wellFormedSeconds in *.
    destruct mer as [[gap txt]|], m as [w|]; try done.
    - apply andb_true_iff in Hm as [_ Hsp].
      destruct txt as [|a [|b [|]]]; try done. simpl in Hsp.
      apply andb_true_iff in Hsp as [_ Hb].
      exists (hh ++ 58%N :: [m1; m2] ++ Spec.secondsText secs ++ gap ++ [a]), b.
      split; [by apply (letter_not_space 77); [lia |] |].
      cbn [Spec.markerText app]. rewrite <- !app_assoc. cbn [app].
      by rewrite <- !app_assoc.
    - destruct secs as [ss|].
      + apply andb_true_iff in Hs as [Hsl Hd].
        destruct ss as [|s1 [|s2 [|]]]; try done.
        simpl in Hd. apply andb_true_iff in Hd as [_ [H2 _]%andb_true_iff].
        exists (hh ++ [58%N; m1; m2; 58%N; s1]), s2.
        split; [by apply digit_not_space |].
        cbn [Spec.markerText Spec.secondsText app]. rewrite <- !app_assoc. done.
      + exists (hh ++ [58%N; m1]), m2.
        split; [by apply digit_not_space |].
        cbn [Spec.markerText Spec.secondsText app]. rewrite <- !app_assoc. done. }
  apply trim_between; auto using digit_not_space.
Qed.

Lemma preSave_time (engineParse : jsstring -> num) (st : DocState)
    (this : IEvent) (d t : jsstring) :
  normalizeDate engineParse (date this) = Ok d ->
  normalizeTime (time this) = Ok t ->
  snd (EventModel.preSave engineParse st this) = None
  /\ time (fst (EventModel.preSave engineParse st this)) = t
  /\ date (fst (EventModel.preSave engineParse st this)) = d.
Proof.
  intros Hd Ht. unfold EventModel.preSave.
  destruct (isNew st || isModified st "title"); cbn [date set_slug];
    rewrite Hd; cbn [time set_date set_slug]; rewrite Ht; done.
Qed.

(** ** What the matcher accepts is denoted by the pattern *)

Lemma star_sound {R} (p : N -> bool) (k : @cont R) x : forall (s : jsstring) n caps,
  star p n s caps k = Some x ->
  exists pre rest n',
    s = pre ++ rest /\ forallb p pre = true /\ k n' rest caps = Some x.
Proof.
  induction s as [|c s IH]; intros n caps H; simpl in H.
  - exists [], [], n. done.
  - destruct (p c) eqn:E.
    + destruct (star p (S n) s caps k) as [y|] eqn:Es.
      * injection H as ->. apply IH in Es as (pre & rest & n' & -> & Hp & Hk).
        exists (c :: pre), rest, n'. simpl. by rewrite E, Hp.
      * exists [], (c :: s), n. done.
    + exists [], (c :: s), n. done.
Qed.

Lemma rmatch_sound {R} (r : regex) : forall (k : @cont R) n (s : jsstring) caps x,
  rmatch r n s caps k = Some x ->
  exists pre rest n' caps',
    s = pre ++ rest /\ denote r pre rest /\ k n' rest caps' = Some x.
Proof.
  induction r as [|p|r1 IH1 r2 IH2|r1 IH1 r2 IH2|p|i r IH| |];
    intros k n s caps x H; cbn [rmatch] in H.
  - exists [], s, n, caps. done.
  - destruct s as [|c s]; [done |]. destruct (p c) eqn:E; [| done].
    exists [c], s, (S n), caps. split_and!; [done | by exists c | done].
  - apply IH1 in H as (p1 & rest1 & n1 & caps1 & -> & H1 & H).
    apply IH2 in H as (p2 & rest2 & n2 & caps2 & -> & H2 & H).
    exists (p1 ++ p2), rest2, n2, caps2.
    split_and!; [by rewrite app_assoc | by exists p1, p2 | done].
  - destruct (rmatch r1 n s caps k) as [y|] eqn:E.
    + injection H as ->. apply IH1 in E as (pre & rest & n' & caps' & -> & H1 & H).
      exists pre, rest, n', caps'. split_and!; [done | by left | done].
    + apply IH2 in H as (pre & rest & n' & caps' & -> & H2 & H).
      exists pre, rest, n', caps'. split_and!; [done | by right | done].
  - apply star_sound in H as (pre & rest & n' & -> & Hp & H).
    exists pre, rest, n', caps. done.
  - apply IH in H as (pre & rest & n' & caps' & -> & Hr & H).
    eexists pre, rest, n', _. split_and!; [done | done | exact H].
  - destruct (Nat.eqb n 0); [| done]. exists [], s, n, caps. done.
  - destruct s; [| done]. exists [], [], n, caps. done.
Qed.

Lemma hourPart_denotes pre rest :
  denote hourPart pre rest ->
  (Nat.eqb (length pre) 1 || Nat.eqb (length pre) 2) && forallb isDigit pre = true.
Proof.
  cbn. intros (p1 & p2 & -> & (c & -> & Hc) & [(c' & -> & Hc') | ->]);
    simpl; by rewrite Hc, ?Hc'.
Qed.

Lemma minutePart_denotes pre rest :
  denote minutePart pre rest ->
  Nat.eqb (length pre) 2 && forallb isDigit pre = true.
Proof.
  cbn. intros (p1 & p2 & -> & (c & -> & Hc) & (c' & -> & Hc')).
  simpl. by rewrite Hc, Hc'.
Qed.

Lemma secondsPart_denotes pre rest :
  denote secondsPart pre rest ->
  exists secs, pre = Spec.secondsText secs /\ Spec.wellFormedSeconds secs = true.
Proof.
  cbn. intros [(p1 & p2 & -> & (c & -> & Hc) & p3 & p4 & -> &
                (c1 & -> & H1) & (c2 & -> & H2)) | ->].
  - exists (Some [c1; c2]). apply colon_is in Hc as ->. simpl.
    by rewrite H1, H2.
  - by exists None.
Qed.

Lemma meridiemPart_denotes pre rest :
  denote meridiemPart pre rest ->
  exists mer m, pre = Spec.markerText mer /\ Spec.wellFormedMarker mer m = true.
Proof.
  cbn. intros [(gap & p2 & -> & Hgap & H) | ->].
  - destruct H as [(p3 & p4 & -> & (a & -> & Ha) & (b & -> & Hb))
                  |(p3 & p4 & -> & (a & -> & Ha) & (b & -> & Hb))].
    + exists (Some (gap, [a; b])), (Some Spec.AM). simpl. by rewrite Hgap, Ha, Hb.
    + exists (Some (gap, [a; b])), (Some Spec.PM). simpl. by rewrite Hgap, Ha, Hb.
  - by exists None, None.
Qed.

(** The pattern accepts nothing but texts of the spec's form. *)
Lemma timePattern_only (s : jsstring) found :
  str_match timePattern s = Some found ->
  exists hh mm secs mer m,
    s = Spec.timeText hh mm secs mer
    /\ Spec.wellFormedTime hh mm secs mer m = true.
Proof.
  rewrite str_match_anchored. intros H.
  apply rmatch_sound in H as (pre & rest & n' & caps' & -> & H & _).
  unfold timePattern, timeTail, timeEnd in H. cbn [denote] in H.
  destruct H as (p0 & p1 & -> & -> & hh & p2 & -> & Hh & c & p3 & -> &
                 (c0 & -> & Hc) & mm & p4 & -> & Hm & ss & p5 & -> & Hs &
                 me & p6 & -> & Hmer & -> & ->).
  apply hourPart_denotes in Hh. apply minutePart_denotes in Hm.
  apply secondsPart_denotes in Hs as (secs & -> & Hs).
  apply meridiemPart_denotes in Hmer as (mer & m & -> & Hmer).
  apply colon_is in Hc as ->.
  exists hh, mm, secs, mer, m. split.
  - unfold Spec.timeText. cbn [app]. by rewrite !app_nil_r.
  - unfold Spec.wellFormedTime. by rewrite Hh, Hm, Hs, Hmer.
Qed.

Lemma clock_wellFormed (hour : Z) (mm : jsstring) :
  (0 <= hour <= 99)%Z ->
  Nat.eqb (length mm) 2 && forallb isDigit mm = true ->
  Spec.clock hour mm
  = Spec.timeText [digitChar (hour / 10); digitChar (hour mod 10)] mm None None
  /\ Spec.wellFormedTime [digitChar (hour / 10); digitChar (hour mod 10)] mm
       None None None = true
  /\ digitsValue [digitChar (hour / 10); digitChar (hour mod 10)] = hour.
Proof.
  intros Hh Hmm.
  assert (0 <= hour / 10 <= 9)%Z
    by (split; [apply Z.div_pos | apply Z.lt_succ_r, Z.div_lt_upper_bound]; lia).
  pose proof (Z.mod_pos_bound hour 10 ltac:(lia)).
  split_and!.
  - unfold Spec.clock, Spec.timeText. cbn. by rewrite app_nil_r.
  - unfold Spec.wellFormedTime. cbn [length forallb Nat.eqb orb andb].
    rewrite !digitChar_digit by lia. by rewrite Hmm.
  - unfold digitsValue. cbn [fold_left].
    rewrite !digitVal_digitChar by lia. pose proof (Z.div_mod hour 10). lia.
Qed.

(** Time normalization leaves its own results as they are. *)
Lemma normalizeTime_idempotent (time out : jsstring) :
  normalizeTime time = Ok out -> normalizeTime out = Ok out.
Proof.
  intros H. pose proof H as H0. unfold normalizeTime in H0.
  destruct (str_match timePattern (trim time)) as [found|] eqn:E; [| done].
  clear H0. apply timePattern_only in E as (hh & mm & secs & mer & m & Ht & Hwf).
  rewrite (normalizeTime_wellFormed _ _ _ _ _ _ Ht Hwf) in H. cbv zeta in H.
  pose proof Hwf as Hwf'. unfold Spec.wellFormedTime in Hwf'.
  apply andb_true_iff in Hwf' as [[[[Hhl Hhd]%andb_true_iff
    Hmm]%andb_true_iff Hs]%andb_true_iff Hm].
  pose proof (to24_nonneg m _ (digitsValue_nonneg _ Hhd)) as Hh0.
  destruct (Z.ltb_spec 23 (Spec.to24 m (digitsValue hh))) as [|Hh]; [done |].
  destruct (Z.ltb_spec 59 (digitsValue mm)) as [|Hmin]; [done |].
  injection H as <-.
  destruct (clock_wellFormed (Spec.to24 m (digitsValue hh)) mm)
    as (Hc & Hwfc & Hv); [lia | done |].
  assert (trim (Spec.clock (Spec.to24 m (digitsValue hh)) mm)
          = Spec.timeText
              [digitChar (Spec.to24 m (digitsValue hh) / 10);
               digitChar (Spec.to24 m (digitsValue hh) mod 10)] mm None None)
    as Htr.
  { rewrite Hc.
    pose proof (trim_timeText [] [] _ _ _ _ _ Hwfc eq_refl eq_refl) as Htr.
    cbn [app] in Htr. by rewrite app_nil_r in Htr. }
  rewrite (normalizeTime_wellFormed _ _ _ _ _ _ Htr Hwfc).
  cbv zeta. cbn [Spec.to24]. rewrite Hv.
  destruct (Z.ltb_spec 23 (Spec.to24 m (digitsValue hh))); [lia |].
  destruct (Z.ltb_spec 59 (digitsValue mm)); [lia |]. done.
Qed.

(** C1, as the code has it: every time the pattern accepts (after the
    hook's trim) is an hour of one or two digits, a colon, a minute of two
    digits, optional seconds and an optional marker; when the hour after the
    conversion of the marker (PM adds 12 unless the hour is 12, AM turns 12
    into 0) is at most 23 and the minute is at most 59, the field is
    rewritten as zero-padded HH:MM; "2:30 PM" becomes "14:30" and
    "12:00 AM" becomes "00:00". *)
Theorem meridiem_converted_and_time_rewritten
    (engineParse : jsstring -> num) (st : DocState) (this : IEvent)
    (accepted : found) :
  str_match timePattern (trim (time this)) = Some accepted ->
  (exists hh mm secs mer m,
     trim (time this) = Spec.timeText hh mm secs mer
     /\ Spec.wellFormedTime hh mm secs mer m = true
     /\ ((Spec.to24 m (digitsValue hh) <= 23)%Z -> (digitsValue mm <= 59)%Z ->
         normalizeTime (time this)
         = Ok (Spec.clock (Spec.to24 m (digitsValue hh)) mm)
         /\ forall d, normalizeDate engineParse (date this) = Ok d ->
              snd (EventModel.preSave engineParse st this) = None
              /\ time (fst (EventModel.preSave engineParse st this))
                 = Spec.clock (Spec.to24 m (digitsValue hh)) mm))
  /\ normalizeTime (lit "2:30 PM") = Ok (lit "14:30")
  /\ normalizeTime (lit "12:00 AM") = Ok (lit "00:00").
Proof.
  intros (hh & mm & secs & mer & m & Ht & Hwf)%timePattern_only.
  split_and!; [| by vm_compute | by vm_compute].
  exists hh, mm, secs, mer, m. split_and!; [done | done |].
  intros Hh Hm.
  assert (normalizeTime (time this)
          = Ok (Spec.clock (Spec.to24 m (digitsValue hh)) mm)) as Hn.
  { rewrite (normalizeTime_wellFormed _ hh mm secs mer m Ht Hwf). cbv zeta.
    destruct (Z.ltb_spec 23 (Spec.to24 m (digitsValue hh))); [lia |].
    destruct (Z.ltb_spec 59 (digitsValue mm)); [lia |]. done. }
  split; [done |]. intros d Hd.
  destruct (preSave_time engineParse st this d _ Hd Hn) as (? & ? & ?). done.
Qed.

Lemma meridiem_converted_and_time_rewritten_witness :
  (exists hh mm secs mer m,
     trim (time Samples.meetup) = Spec.timeText hh mm secs mer
     /\ Spec.wellFormedTime hh mm secs mer m = true
     /\ ((Spec.to24 m (digitsValue hh) <= 23)%Z -> (digitsValue mm <= 59)%Z ->
         normalizeTime (time Samples.meetup)
         = Ok (Spec.clock (Spec.to24 m (digitsValue hh)) mm)
         /\ forall d,
              normalizeDate Samples.strictEngine (date Samples.meetup) = Ok d ->
              snd (EventModel.preSave Samples.strictEngine Samples.created
                     Samples.meetup) = None
              /\ time (fst (EventModel.preSave Samples.strictEngine
                              Samples.created Samples.meetup))
                 = Spec.clock (Spec.to24 m (digitsValue hh)) mm))
  /\ normalizeTime (lit "2:30 PM") = Ok (lit "14:30")
  /\ normalizeTime (lit "12:00 AM") = Ok (lit "00:00").
Proof.
  apply (meridiem_converted_and_time_rewritten Samples.strictEngine
           Samples.created Samples.meetup
           (Found 0 7 [] [(3%nat, lit "PM"); (2%nat, lit "30"); (1%nat, lit "2")])).
  vm_compute. reflexivity.
Defined.

(** C1 as stated fails: "25:00" and "13:00 PM" are of the accepted form,
    and the hook rejects them instead of rewriting the field. *)
Lemma accepted_time_out_of_range :
  Spec.wellFormedTime (lit "25") (lit "00") None None None = true
  /\ (exists found, str_match timePattern (trim (lit "25:00")) = Some found)
  /\ normalizeTime (lit "25:00") = Throw (TimeOutOfRange (lit "25:00"))
  /\ Spec.wellFormedTime (lit "13") (lit "00") None
       (Some (lit " ", lit "PM")) (Some Spec.PM) = true
  /\ normalizeTime (lit "13:00 PM") = Throw (TimeOutOfRange (lit "13:00 PM")).
Proof.
  split_and!; try (vm_compute; reflexivity).
  eexists. vm_compute. reflexivity.
Qed.

Example time_samples :
  normalizeTime (lit "14:65") = Throw (TimeOutOfRange (lit "14:65"))
  /\ normalizeTime (lit " 7:05:59pm ") = Ok (lit "19:05")
  /\ normalizeTime (lit "07:05") = Ok (lit "07:05")
  /\ normalizeTime (lit "7.05") = Throw (InvalidTimeFormat (lit "7.05"))
  /\ message (TimeOutOfRange (lit "14:65"))
     = lit "Time out of range: " ++ [34%N] ++ lit "14:65" ++ [34%N] ++ lit ".".
Proof. split_and!; vm_compute; reflexivity. Qed.

(** ** The calendar *)

Section Calendar.
Local Open Scope Z_scope.

(** Every day number is a date of the calendar, and the date gives the
    day number back. *)
Lemma civil_roundtrip z :
  let '(y, m, d) := civilFromDays z in
  daysFromCivil y m d = z /\ validDate y m d = true
  /\ (z + 719468) / 146097 * 400 <= y <= (z + 719468) / 146097 * 400 + 400.
Proof.
  unfold civilFromDays. cbv zeta.
  set (era := (z + 719468) / 146097).
  set (doe := z + 719468 - era * 146097).
  assert (0 <= doe < 146097) as Hdoe
    by (unfold doe, era; Z.to_euclidean_division_equations; lia).
  set (yoe := (doe - doe / 1460 + doe / 36524 - doe / 146096) / 365).
  set (doy := doe - (365 * yoe + yoe / 4 - yoe / 100)).
  assert (0 <= yoe <= 399 /\ 0 <= doy <= 365
          /\ (doy = 365 -> yoe mod 4 = 3 /\ (yoe mod 100 <> 99 \/ yoe = 399)))
    as (Hyoe & Hdoy & Hleap)
    by (unfold doy, yoe; Z.to_euclidean_division_equations; lia).
  set (mp := (5 * doy + 2) / 153).
  assert (0 <= mp <= 11) as Hmp
    by (unfold mp; Z.to_euclidean_division_equations; lia).
  set (d := doy - (153 * mp + 2) / 5 + 1).
  split; [| split].
  - unfold daysFromCivil.
    destruct (Z.ltb_spec mp 10).
    + destruct (Z.leb_spec (mp + 3) 2); [lia |].
      destruct (Z.ltb_spec 2 (mp + 3)); [| lia].
      cbv zeta.
      replace ((yoe + era * 400) / 400) with era
        by (Z.to_euclidean_division_equations; lia).
      replace (mp + 3 - 3) with mp by lia.
      replace (yoe + era * 400 - era * 400) with yoe by lia.
      unfold d, doe. lia.
    + destruct (Z.leb_spec (mp - 9) 2); [| lia].
      destruct (Z.ltb_spec 2 (mp - 9)); [lia |].
      cbv zeta.
      replace ((yoe + era * 400 + 1 - 1) / 400) with era
        by (Z.to_euclidean_division_equations; lia).
      replace (mp - 9 + 9) with mp by lia.
      replace (yoe + era * 400 + 1 - 1 - era * 400) with yoe by lia.
      unfold d, doe. lia.
  - assert (1 <= d
            /\ (d <= 31)
            /\ (mp = 1 \/ mp = 3 \/ mp = 6 \/ mp = 8 -> d <= 30)
            /\ (mp = 11 -> d <= 29 /\ (d = 29 -> doy = 365)))
      as (Hd1 & Hd31 & Hd30 & Hfeb)
      by (unfold d, mp; Z.to_euclidean_division_equations; lia).
    assert (doy = 365 -> isLeap (yoe + era * 400 + 1) = true) as Hl.
    { intros Hd. apply Hleap in Hd. unfold isLeap.
      apply orb_true_iff.
      destruct (Z.eq_dec yoe 399) as [->|Hne].
      - right. apply Z.eqb_eq. Z.to_euclidean_division_equations. lia.
      - left. apply andb_true_iff. split.
        + apply Z.eqb_eq. Z.to_euclidean_division_equations. lia.
        + apply negb_true_iff, Z.eqb_neq.
          Z.to_euclidean_division_equations. lia. }
    unfold validDate.
    set (m := if mp <? 10 then mp + 3 else mp - 9).
    assert (1 <= m <= 12) as Hm by (unfold m; destruct (Z.ltb_spec mp 10); lia).
    repeat (apply andb_true_iff; split); try (apply Z.leb_le; lia).
    apply Z.leb_le. unfold daysInMonth.
    destruct (Z.eq_dec mp 11) as [E|E].
    + assert (m = 2) as -> by (unfold m; rewrite E; reflexivity).
      cbn [Z.leb Z.eqb Z.compare Pos.compare Pos.compare_cont Pos.eqb].
      destruct (Z.eq_dec d 29) as [Hd|Hd].
      * rewrite Hl by (apply Hfeb; auto). lia.
      * destruct (isLeap _); lia.
    + assert (m <> 2) as Hm2 by (unfold m; destruct (Z.ltb_spec mp 10); lia).
      destruct (Z.eqb_spec m 2); [lia |].
      destruct ((m =? 4) || (m =? 6) || (m =? 9) || (m =? 11)) eqn:E30; [| lia].
      apply Hd30. unfold m in E30.
      destruct (Z.ltb_spec mp 10);
        repeat (apply orb_true_iff in E30 as [E30|E30]);
        apply Z.eqb_eq in E30; lia.
  - destruct (_ <=? 2); lia.
Qed.

(** The first of January is the first day of its year, and every date of
    a year lies between the first day of that year and the first day of
    the next: the year of a date is the language's YearFromTime. *)
Lemma daysFromCivil_new_year y : daysFromCivil y 1 1 = dayFromYear y.
Proof.
  unfold daysFromCivil, dayFromYear.
  cbn [Z.leb Z.ltb Z.compare Pos.compare Pos.compare_cont]. cbv zeta.
  Z.to_euclidean_division_equations. lia.
Qed.

Lemma year_of_day y m d :
  validDate y m d = true ->
  dayFromYear y <= daysFromCivil y m d < dayFromYear (y + 1).
Proof.
  unfold validDate. intros H.
  apply andb_true_iff in H as [H H4]. apply andb_true_iff in H as [H H3].
  apply andb_true_iff in H as [H1 H2].
  apply Z.leb_le in H1, H2, H3, H4.
  assert (d <= 31
          /\ (m = 4 \/ m = 6 \/ m = 9 \/ m = 11 -> d <= 30)
          /\ (m = 2 -> d <= 29
               /\ (d = 29 -> (y mod 4 = 0 /\ y mod 100 <> 0) \/ y mod 400 = 0)))
    as (Hd31 & Hd30 & Hfeb).
  { unfold daysInMonth, isLeap in H4.
    destruct (Z.eqb_spec m 2) as [->|].
    - split; [| split]; [| lia |].
      + destruct (_ || _); lia.
      + intros _. destruct (Z.eqb_spec (y mod 4) 0), (Z.eqb_spec (y mod 100) 0),
          (Z.eqb_spec (y mod 400) 0); cbn in H4; lia.
    - destruct (Z.eqb_spec m 4), (Z.eqb_spec m 6), (Z.eqb_spec m 9),
        (Z.eqb_spec m 11); cbn in H4; lia. }
  clear H4. unfold daysFromCivil, dayFromYear.
  destruct (Z.leb_spec m 2), (Z.ltb_spec 2 m); try lia; cbv zeta.
  - Z.to_euclidean_division_equations. lia.
  - Z.to_euclidean_division_equations. lia.
Qed.

Lemma civilFromDays_year z :
  let '(y, _, _) := civilFromDays z in
  dayFromYear y <= z < dayFromYear (y + 1).
Proof.
  pose proof (civil_roundtrip z) as H.
  destruct (civilFromDays z) as [[y m] d]. destruct H as (Hd & Hv & _).
  pose proof (year_of_day y m d Hv). lia.
Qed.

End Calendar.

(** ** Dates as text *)

Section DateText.
Local Open Scope Z_scope.

Lemma takeWhile_stop (q : N -> bool) (a b : jsstring) (c : N) :
  forallb q a = true -> q c = false -> takeWhile q (a ++ c :: b) = a.
Proof.
  intros Ha Hc. induction a as [|x a IH]; simpl in *; [by rewrite Hc |].
  apply andb_true_iff in Ha as [Hx Ha]. by rewrite Hx, IH.
Qed.

Lemma digits_not_T (ds : jsstring) :
  forallb isDigit ds = true ->
  forallb (fun c => negb (charIs 84 c)) ds = true.
Proof.
  rewrite !forallb_forall. intros H c Hc. specialize (H c Hc).
  destruct (charIs 84 c) eqn:E; [exfalso; class_solve | done].
Qed.

Lemma isoYear_not_T y :
  forallb (fun c => negb (charIs 84 c)) (isoYear y) = true.
Proof.
  unfold isoYear. destruct (_ && _) eqn:E.
  - apply digits_not_T, pad_digits. apply andb_true_iff in E as [E _]. lia.
  - cbn [forallb]. rewrite digits_not_T by (apply pad_digits; lia).
    by destruct (y <? 0).
Qed.

Lemma toISOString_date t :
  splitHead 84 (toISOString t)
  = (let '(y, m, d) := civilFromDays (t / msPerDay) in isoDate y m d).
Proof.
  unfold toISOString, splitHead.
  pose proof (civil_roundtrip (t / msPerDay)) as H.
  destruct (civilFromDays (t / msPerDay)) as [[y m] d].
  destruct H as (_ & Hv & _). unfold validDate in Hv.
  apply andb_true_iff in Hv as [[[H1 H2]%andb_true_iff H3]%andb_true_iff H4].
  assert (forall a1 a2 a3 a4 a5 r : jsstring,
            a1 ++ a2 ++ a3 ++ a4 ++ a5 ++ r = (a1 ++ a2 ++ a3 ++ a4 ++ a5) ++ r)
    as Hassoc by (intros; by rewrite <- !app_assoc).
  rewrite Hassoc. change (lit "T") with [84%N]. cbn [app]. unfold isoDate.
  apply takeWhile_stop; [| done].
  rewrite !forallb_app, isoYear_not_T.
  rewrite (digits_not_T (pad 2 m)), (digits_not_T (pad 2 d))
    by (apply pad_digits; lia).
  done.
Qed.

Lemma head_digit (ds rest : jsstring) :
  ds <> [] -> forallb isDigit ds = true ->
  exists c s', ds ++ rest = c :: s' /\ isDigit c = true.
Proof.
  destruct ds as [|c ds]; [done |]. simpl.
  intros _ [Hc _]%andb_true_iff. by exists c, (ds ++ rest).
Qed.

Lemma parseMonthDay_pads y m d :
  validDate y m d = true ->
  parseMonthDay y (lit "-" ++ pad 2 m ++ lit "-" ++ pad 2 d)
  = Some (daysFromCivil y m d * msPerDay).
Proof.
  intros Hv. pose proof Hv as Hv'. unfold validDate in Hv'.
  apply andb_true_iff in Hv' as [[[H1 H2]%andb_true_iff H3]%andb_true_iff H4].
  assert (d <= 31) by
    (unfold daysInMonth in H4; repeat destruct (_ =? _) in H4;
     try destruct (isLeap y) in H4; cbn in H4; lia).
  rewrite !pad2 by lia. change (lit "-") with [45%N]. cbn [app].
  unfold parseMonthDay.
  assert (forall v, 0 <= v <= 99 ->
            digitsValue [digitChar (v / 10); digitChar (v mod 10)] = v
            /\ isDigit (digitChar (v / 10)) = true
            /\ isDigit (digitChar (v mod 10)) = true) as Hdv.
  { intros v Hvr.
    assert (0 <= v / 10 <= 9)
      by (split; [apply Z.div_pos | apply Z.lt_succ_r, Z.div_lt_upper_bound]; lia).
    pose proof (Z.mod_pos_bound v 10 ltac:(lia)).
    unfold digitsValue. cbn [fold_left].
    rewrite !digitVal_digitChar, !digitChar_digit by lia.
    pose proof (Z.div_mod v 10). split_and!; [lia | done | done]. }
  cbn [forallb].
  destruct (Hdv m ltac:(lia)) as (-> & -> & ->).
  destruct (Hdv d ltac:(lia)) as (-> & -> & ->).
  change (charIs 45 45) with true. cbn [andb].
  fold (validDate y m d). by rewrite Hv.
Qed.

Lemma parseIsoDateOnly_isoDate y m d :
  validDate y m d = true -> -999999 <= y <= 999999 ->
  parseIsoDateOnly (isoDate y m d) = Some (daysFromCivil y m d * msPerDay).
Proof.
  intros Hv Hy. unfold isoDate, isoYear.
  destruct (Z.leb_spec 0 y) as [Hy0|Hy0];
    [destruct (Z.leb_spec y 9999) as [Hy1|Hy1] |]; cbn [andb].
  - pose proof (pad_length 3 y ltac:(simpl; lia)) as Hl.
    pose proof (pad_digits 4 y Hy0) as Hd.
    pose proof (digitsValue_pad 4 y Hy0) as Hval.
    destruct (head_digit (pad 4 y)
                (lit "-" ++ pad 2 m ++ lit "-" ++ pad 2 d))
      as (c & s' & Hs & Hc); [by destruct (pad 4 y) | done |].
    unfold parseIsoDateOnly. rewrite Hs.
    assert (charIs 43 c || charIs 45 c = false) as ->
      by (destruct (_ || _) eqn:E; [exfalso; class_solve | done]).
    rewrite <- Hs.
    rewrite take_app_length', drop_app_length' by done.
    rewrite Hl, Hd, Hval. cbn [Nat.eqb andb].
    by apply parseMonthDay_pads.
  - pose proof (pad_length 5 (Z.abs y) ltac:(simpl; lia)) as Hl.
    pose proof (pad_digits 6 (Z.abs y) ltac:(lia)) as Hd.
    pose proof (digitsValue_pad 6 (Z.abs y) ltac:(lia)) as Hval.
    destruct (Z.ltb_spec y 0); [lia |].
    cbn [app parseIsoDateOnly]. change (charIs 43 43 || charIs 45 43) with true.
    change (charIs 45 43) with false. cbn [andb negb].
    rewrite take_app_length', drop_app_length' by done.
    rewrite Hl, Hd, Hval. cbn [Nat.eqb andb].
    replace (Z.abs y) with y by lia. by apply parseMonthDay_pads.
  - pose proof (pad_length 5 (Z.abs y) ltac:(simpl; lia)) as Hl.
    pose proof (pad_digits 6 (Z.abs y) ltac:(lia)) as Hd.
    pose proof (digitsValue_pad 6 (Z.abs y) ltac:(lia)) as Hval.
    destruct (Z.ltb_spec y 0); [| lia].
    cbn [app parseIsoDateOnly]. change (charIs 43 45 || charIs 45 45) with true.
    change (charIs 45 45) with true. cbn [andb negb].
    rewrite take_app_length', drop_app_length' by done.
    rewrite Hl, Hd, Hval. cbn [Nat.eqb andb].
    destruct (Z.eqb_spec (Z.abs y) 0); [lia |]. cbn [negb].
    replace (- Z.abs y) with y by lia. by apply parseMonthDay_pads.
Qed.

End DateText.

(** ** Date normalization *)

Section DateHook.
Local Open Scope Z_scope.
Variable engineParse : jsstring -> num.

Lemma timeClip_Int (x : num) t :
  timeClip x = Int t -> x = Int t /\ Z.abs t <= maxTime.
Proof.
  destruct x as [|z]; simpl; [done |].
  destruct (Z.leb_spec (Z.abs z) maxTime); [| done].
  by intros [= <-].
Qed.

Lemma Date_new_range (s : jsstring) t :
  Date_new engineParse s = Int t -> Z.abs t <= maxTime.
Proof.
  unfold Date_new, Date_parse.
  destruct (parseIsoDateOnly s); by intros [_ H]%timeClip_Int.
Qed.

Lemma normalizeDate_Ok (s out : jsstring) :
  normalizeDate engineParse s = Ok out <->
  exists t, Date_new engineParse s = Int t
            /\ out = (let '(y, m, d) := civilFromDays (t / msPerDay) in
                      isoDate y m d).
Proof.
  unfold normalizeDate. destruct (Date_new engineParse s) as [|t].
  - split; [done | by intros (t & ? & _)].
  - rewrite toISOString_date. split.
    + intros [= <-]. by exists t.
    + by intros (t' & [= <-] & ->).
Qed.

Lemma normalizeDate_Throw (s : jsstring) e :
  normalizeDate engineParse s = Throw e <->
  Date_new engineParse s = NaN /\ e = InvalidDateValue s.
Proof.
  unfold normalizeDate. destruct (Date_new engineParse s) as [|t].
  - split; [by intros [= <-] | by intros [_ ->]].
  - split; [done | by intros [? _]].
Qed.

Lemma year_range z :
  -100000000 <= z <= 100000000 ->
  let '(y, m, d) := civilFromDays z in -999999 <= y <= 999999.
Proof.
  intros Hz. pose proof (civil_roundtrip z) as H.
  destruct (civilFromDays z) as [[y m] d]. destruct H as (_ & _ & Hy).
  pose proof (Z.div_mod (z + 719468) 146097 ltac:(lia)).
  pose proof (Z.mod_pos_bound (z + 719468) 146097 ltac:(lia)). lia.
Qed.

(** The date of a day within the range of time values is read back as
    midnight UTC of that day, and written out again unchanged. *)
Lemma normalizeDate_isoDate z :
  -100000000 <= z <= 100000000 ->
  let '(y, m, d) := civilFromDays z in
  normalizeDate engineParse (isoDate y m d) = Ok (isoDate y m d).
Proof.
  intros Hz. pose proof (civil_roundtrip z) as H.
  pose proof (year_range z Hz) as Hy.
  destruct (civilFromDays z) as [[y m] d] eqn:Ec.
  destruct H as (Hd & Hv & _).
  apply normalizeDate_Ok. exists (z * msPerDay). split.
  - unfold Date_new, Date_parse.
    rewrite parseIsoDateOnly_isoDate, Hd by done. unfold timeClip.
    destruct (Z.leb_spec (Z.abs (z * msPerDay)) maxTime); [done |].
    unfold msPerDay, maxTime in *. lia.
  - rewrite Z.div_mul by done. by rewrite Ec.
Qed.

Lemma normalizeDate_idempotent (s out : jsstring) :
  normalizeDate engineParse s = Ok out ->
  normalizeDate engineParse out = Ok out.
Proof.
  intros (t & Ht & ->)%normalizeDate_Ok.
  apply Date_new_range in Ht.
  apply normalizeDate_isoDate.
  unfold maxTime in Ht.
  pose proof (Z.div_mod t msPerDay ltac:(done)).
  pose proof (Z.mod_pos_bound t msPerDay ltac:(done)).
  unfold msPerDay in *. lia.
Qed.

(** With a year from 0 to 9999 the result has the form YYYY-MM-DD. *)
Lemma normalizeDate_calendarForm (s out : jsstring) t :
  Date_new engineParse s = Int t ->
  (let '(y, _, _) := civilFromDays (t / msPerDay) in 0 <= y <= 9999) ->
  normalizeDate engineParse s = Ok out -> Spec.calendarForm out = true.
Proof.
  intros Ht Hy (t' & Ht' & ->)%normalizeDate_Ok.
  rewrite Ht in Ht'. injection Ht' as <-.
  pose proof (civil_roundtrip (t / msPerDay)) as H.
  destruct (civilFromDays (t / msPerDay)) as [[y m] d].
  destruct H as (_ & Hv & _). unfold validDate in Hv.
  apply andb_true_iff in Hv as [[[H1 H2]%andb_true_iff H3]%andb_true_iff H4].
  assert (d <= 31) by
    (unfold daysInMonth in H4; repeat destruct (_ =? _) in H4;
     try destruct (isLeap y) in H4; cbn in H4; lia).
  unfold isoDate, isoYear.
  destruct (Z.leb_spec 0 y); [| lia]. destruct (Z.leb_spec y 9999); [| lia].
  cbn [andb].
  pose proof (pad_length 3 y ltac:(simpl; lia)) as Hl.
  pose proof (pad_digits 4 y ltac:(lia)) as Hd.
  pose proof (pad_digits 2 m ltac:(lia)) as Hdm.
  pose proof (pad_digits 2 d ltac:(lia)) as Hdd.
  rewrite !pad2 in * by lia.
  destruct (pad 4 y) as [|y1 [|y2 [|y3 [|y4 [|]]]]]; try done.
  change (lit "-") with [45%N]. cbn [app Spec.calendarForm].
  cbn [forallb] in *. change (charIs 45 45) with true.
  repeat match goal with H : _ && _ = true |- _ =>
    apply andb_true_iff in H as [? ?] end.
  repeat match goal with H : isDigit _ = true |- _ => rewrite H end. done.
Qed.

End DateHook.

Lemma preSave_succeeded (engineParse : jsstring -> num) (st : DocState)
    (this : IEvent) :
  snd (EventModel.preSave engineParse st this) = None ->
  normalizeDate engineParse (date this)
  = Ok (date (fst (EventModel.preSave engineParse st this)))
  /\ normalizeTime (time this)
     = Ok (time (fst (EventModel.preSave engineParse st this))).
Proof.
  unfold EventModel.preSave.
  destruct (isNew st || isModified st "title"); cbn [date set_slug];
    destruct (normalizeDate engineParse (date this)); cbn [snd];
    try done; cbn [time set_date set_slug];
    destruct (normalizeTime (time this)); done.
Qed.

(** C9: time normalization and date normalization give their own results
    back, so saving again an event that was saved leaves its date and its
    time as they are. *)
Theorem normalization_idempotent (engineParse : jsstring -> num)
    (st st' : DocState) (this : IEvent) (t tOut d dOut : jsstring) :
  (normalizeTime t = Ok tOut -> normalizeTime tOut = Ok tOut)
  /\ (normalizeDate engineParse d = Ok dOut ->
      normalizeDate engineParse dOut = Ok dOut)
  /\ (snd (EventModel.preSave engineParse st this) = None ->
      let saved := fst (EventModel.preSave engineParse st this) in
      snd (EventModel.preSave engineParse st' saved) = None
      /\ date (fst (EventModel.preSave engineParse st' saved)) = date saved
      /\ time (fst (EventModel.preSave engineParse st' saved)) = time saved).
Proof.
  split_and!.
  - apply normalizeTime_idempotent.
  - apply normalizeDate_idempotent.
  - intros [Hd Ht]%preSave_succeeded. cbv zeta.
    apply normalizeDate_idempotent in Hd. apply normalizeTime_idempotent in Ht.
    destruct (preSave_time engineParse st' _ _ _ Hd Ht) as (? & ? & ?). done.
Qed.

Lemma normalization_idempotent_witness :
  normalizeTime (lit "14:30") = Ok (lit "14:30")
  /\ normalizeDate Samples.strictEngine (lit "2025-03-05")
     = Ok (lit "2025-03-05")
  /\ snd (EventModel.preSave Samples.strictEngine Samples.loaded
            (fst (EventModel.preSave Samples.strictEngine Samples.created
                    Samples.meetup))) = None.
Proof.
  destruct (normalization_idempotent Samples.strictEngine Samples.created
              Samples.loaded Samples.meetup (lit "2:30 PM") (lit "14:30")
              (lit "2025-03-05") (lit "2025-03-05")) as (Ht & Hd & Hs).
  split_and!.
  - apply Ht. vm_compute. reflexivity.
  - apply Hd. vm_compute. reflexivity.
  - apply Hs. vm_compute. reflexivity.
Defined.

(** C3 at the inputs where the code departs from it: the first day of the
    year 10000 parses, and is written with a sign and six digits, which is
    not the form YYYY-MM-DD; and "March 5, 2025", read as local midnight
    one hour ahead of UTC, is written as the day before. *)
Theorem date_outside_calendar_form (engineParse : jsstring -> num)
    (st : DocState) :
  normalizeDate engineParse (lit "+010000-01-01") = Ok (lit "+010000-01-01")
  /\ Spec.calendarForm (lit "+010000-01-01") = false
  /\ snd (EventModel.preSave engineParse st Samples.farAhead) = None
  /\ date (fst (EventModel.preSave engineParse st Samples.farAhead))
     = lit "+010000-01-01"
  /\ normalizeDate (Samples.localEngine 60) (lit "March 5, 2025")
     = Ok (lit "2025-03-04")
  /\ normalizeDate (Samples.localEngine 0) (lit "March 5, 2025")
     = Ok (lit "2025-03-05").
Proof.
  assert (normalizeDate engineParse (lit "+010000-01-01")
          = Ok (lit "+010000-01-01")) as Hd by (vm_compute; reflexivity).
  assert (normalizeTime (time Samples.farAhead) = Ok (lit "14:30")) as Ht
    by (vm_compute; reflexivity).
  destruct (preSave_time engineParse st Samples.farAhead _ _ Hd Ht) as (? & ? & ?).
  split_and!; try done; vm_compute; reflexivity.
Qed.

Example date_samples :
  normalizeDate Samples.strictEngine (lit "not-a-date")
  = Throw (InvalidDateValue (lit "not-a-date"))
  /\ normalizeDate Samples.strictEngine (lit "2024-02-29")
     = Ok (lit "2024-02-29")
  /\ normalizeDate Samples.strictEngine (lit "-000001-12-31")
     = Ok (lit "-000001-12-31")
  /\ toISOString 1741129200123 = lit "2025-03-04T23:00:00.123Z"
  /\ toISOString (-1) = lit "1969-12-31T23:59:59.999Z"
  /\ toISOString maxTime = lit "+275760-09-13T00:00:00.000Z".
Proof. split_and!; vm_compute; reflexivity. Qed.

(** * More properties of the Event hook *)

Section MoreSlugs.
Import More.

Lemma slug_of_letters (s : jsstring) :
  forallb Spec.slugLetter s = true -> Spec.slug s = s.
Proof.
  intros H. unfold Spec.slug.
  rewrite (letters_lower _ H), (letters_kept _ H).
  rewrite trim_no_space by (by apply letters_no_space).
  by apply hyphenate_no_space, letters_no_space.
Qed.

(** X1: a slug is its own slug: deriving again from a derived slug changes
    nothing. *)
Theorem slugify_idempotent (title : jsstring) :
  slugify (slugify title) = slugify title.
Proof.
  rewrite !slugify_spec. apply slug_of_letters, slug_letters.
Qed.

Lemma lowerUnit_upperUnit c : lowerUnit (upperUnit c) = lowerUnit c.
Proof.
  unfold upperUnit. destruct (isLowerAZ c) eqn:E; [| done].
  unfold lowerUnit.
  assert (isUpperAZ (c - 32) = true) as -> by class_solve.
  assert (isUpperAZ c = false) as ->
    by (destruct (isUpperAZ c) eqn:E'; [exfalso; class_solve | done]).
  assert ((c =? 8490)%N = false) as ->
    by (destruct (c =? 8490)%N eqn:E'; [exfalso; class_solve | done]).
  assert ((c =? 304)%N = false) as ->
    by (destruct (c =? 304)%N eqn:E'; [exfalso; class_solve | done]).
  f_equal. class_solve.
Qed.

(** X2: the slug does not see the case of Basic Latin letters: a title and
    the same title in capitals have the same slug. *)
Theorem slugify_ignores_case (title : jsstring) :
  slugify (capitals title) = slugify title.
Proof.
  rewrite !slugify_spec. unfold Spec.slug. do 3 f_equal.
  unfold toLowerCase, capitals.
  induction title as [|c t IH]; simpl; [done |].
  by rewrite lowerUnit_upperUnit, IH.
Qed.

Lemma dropped_lower c :
  dropped c = true ->
  forallb isWhiteSpace (List.filter slugChar (lowerUnit c)) = true.
Proof.
  intros H. unfold dropped in H. apply negb_true_iff in H.
  apply orb_false_iff in H as [H H130]. apply orb_false_iff in H as [H H212A].
  apply orb_false_iff in H as [H Hh]. apply orb_false_iff in H as [H Hd].
  apply orb_false_iff in H as [Hl Hu].
  unfold lowerUnit. rewrite Hu.
  unfold charIs in *. rewrite H212A, H130. simpl.
  unfold slugChar, charIs. rewrite Hl, Hd, Hh.
  destruct (isWhiteSpace c) eqn:E; simpl; by rewrite ?E.
Qed.

Lemma trim_all_space (s : jsstring) :
  forallb isWhiteSpace s = true -> trim s = [].
Proof.
  intros H. unfold trim, trimEnd.
  assert (trimStart s = []) as ->; [| done].
  induction s as [|c s IH]; simpl in *; [done |].
  apply andb_true_iff in H as [-> H]. auto.
Qed.

(** X3: a title without any letter, digit or hyphen (white space and
    punctuation only, say) has the empty slug. *)
Theorem slugify_nothing_left (title : jsstring) :
  forallb dropped title = true -> slugify title = [].
Proof.
  intros H. rewrite slugify_spec. unfold Spec.slug.
  rewrite trim_all_space; [done |].
  unfold toLowerCase. induction title as [|c t IH]; simpl; [done |].
  simpl in H. apply andb_true_iff in H as [Hc Ht].
  rewrite List.filter_app, forallb_app, (dropped_lower _ Hc). auto.
Qed.

Lemma slugify_nothing_left_witness : slugify (lit "!!! ???") = [].
Proof. apply (slugify_nothing_left (lit "!!! ???")). reflexivity. Defined.

Lemma space_lower c : isWhiteSpace c = true -> lowerUnit c = [c].
Proof.
  intros H. unfold lowerUnit.
  destruct (isUpperAZ c) eqn:E1; [exfalso; class_solve |].
  destruct (c =? 8490)%N eqn:E2; [exfalso; class_solve |].
  destruct (c =? 304)%N eqn:E3; [exfalso; class_solve |]. done.
Qed.

Lemma spaces_lower (s : jsstring) :
  forallb isWhiteSpace s = true -> toLowerCase s = s.
Proof.
  induction s as [|c s IH]; simpl; [done |].
  intros [Hc Hs]%andb_true_iff.
  unfold toLowerCase in *. simpl. rewrite space_lower by done.
  simpl. by rewrite IH.
Qed.

Lemma toLowerCase_app (a b : jsstring) :
  toLowerCase (a ++ b) = toLowerCase a ++ toLowerCase b.
Proof. unfold toLowerCase. apply flat_map_app. Qed.

Lemma spaces_kept (s : jsstring) :
  forallb isWhiteSpace s = true -> List.filter slugChar s = s.
Proof.
  induction s as [|c s IH]; simpl; [done |].
  intros [Hc Hs]%andb_true_iff. unfold slugChar at 1. rewrite Hc.
  rewrite orb_true_r. simpl. by rewrite IH.
Qed.

Lemma hyphenate_letters_then (a rest : jsstring) :
  forallb Spec.slugLetter a = true ->
  Spec.hyphenate false (a ++ rest) = a ++ Spec.hyphenate false rest.
Proof.
  induction a as [|c a IH]; simpl; [done |].
  intros [Hc Ha]%andb_true_iff. rewrite (slugLetter_not_space _ Hc).
  by rewrite IH.
Qed.

(** X4: two words of slug letters with any white space between them are
    joined by a single hyphen, so the title has the slug of the same two
    words written with a hyphen. *)
Theorem slugify_joins_words (a gap b : jsstring) :
  a <> [] -> b <> [] -> gap <> [] ->
  forallb Spec.slugLetter a = true -> forallb Spec.slugLetter b = true ->
  forallb isWhiteSpace gap = true ->
  slugify (a ++ gap ++ b) = a ++ 45%N :: b
  /\ slugify (a ++ 45%N :: b) = a ++ 45%N :: b.
Proof.
  intros Ha Hb Hg Hla Hlb Hws. split.
  - rewrite slugify_spec. unfold Spec.slug.
    rewrite !toLowerCase_app, (letters_lower _ Hla), (letters_lower _ Hlb),
      (spaces_lower _ Hws).
    rewrite !List.filter_app, (letters_kept _ Hla), (letters_kept _ Hlb),
      (spaces_kept _ Hws).
    destruct a as [|c a]; [done |].
    destruct (exists_last Hb) as (b' & z & ->).
    assert (isWhiteSpace c = false) as Hc.
    { apply slugLetter_not_space. simpl in Hla.
      by apply andb_true_iff in Hla as [? _]. }
    assert (isWhiteSpace z = false) as Hz.
    { apply slugLetter_not_space. rewrite forallb_app in Hlb. simpl in Hlb.
      by apply andb_true_iff in Hlb as [_ [? _]%andb_true_iff]. }
    pose proof (trim_between [] [] (a ++ gap ++ b') c z eq_refl eq_refl Hc Hz)
      as Ht.
    cbn [app] in Ht. rewrite app_nil_r in Ht.
    replace ((c :: a) ++ gap ++ b' ++ [z]) with (c :: (a ++ gap ++ b') ++ [z])
      by (cbn [app]; by rewrite <- !app_assoc).
    rewrite Ht.
    replace (c :: (a ++ gap ++ b') ++ [z]) with ((c :: a) ++ gap ++ b' ++ [z])
      by (cbn [app]; by rewrite <- !app_assoc).
    rewrite hyphenate_letters_then by done. f_equal.
    destruct gap as [|g gap]; [done |].
    simpl in Hws. apply andb_true_iff in Hws as [Hg1 Hg2].
    cbn [app Spec.hyphenate]. rewrite Hg1. f_equal.
    rewrite hyphenate_run, trimStart_lead by done.
    rewrite trimStart_no_space by (by apply letters_no_space).
    by apply hyphenate_no_space, letters_no_space.
  - rewrite slugify_spec. apply slug_of_letters.
    rewrite forallb_app. simpl. by rewrite Hla, Hlb.
Qed.

Lemma slugify_joins_words_witness :
  slugify (lit "rust" ++ lit "   " ++ lit "meetup") = lit "rust" ++ 45%N :: lit "meetup"
  /\ slugify (lit "rust" ++ 45%N :: lit "meetup") = lit "rust" ++ 45%N :: lit "meetup".
Proof.
  apply (slugify_joins_words (lit "rust") (lit "   ") (lit "meetup"));
    (discriminate || reflexivity).
Defined.

End MoreSlugs.

(** ** More on times *)

Section MoreTimes.
Import More.

(** X5: the hook rejects a time as badly formed exactly when, trimmed, it
    is not an hour of one or two digits, a colon, a minute of two digits,
    optional seconds of two digits and an optional marker. *)
Theorem time_format_rejected_iff (time : jsstring) :
  normalizeTime time = Throw (InvalidTimeFormat time) <->
  ~ exists hh mm secs mer m,
      trim time = Spec.timeText hh mm secs mer
      /\ Spec.wellFormedTime hh mm secs mer m = true.
Proof.
  split.
  - intros H (hh & mm & secs & mer & m & Ht & Hwf).
    rewrite (normalizeTime_wellFormed _ _ _ _ _ _ Ht Hwf) in H. cbv zeta in H.
    by destruct (_ || _).
  - intros H. unfold normalizeTime.
    destruct (str_match timePattern (trim time)) as [found|] eqn:E; [| done].
    exfalso. apply H. by apply timePattern_only in E.
Qed.

(** X6: a time of the accepted form is rejected as out of range exactly
    when its hour, after the conversion of the marker, is above 23 or its
    minute is above 59; a 12-hour reading such as 13 PM is among these. *)
Theorem time_out_of_range_iff (time hh mm : jsstring) secs mer m :
  trim time = Spec.timeText hh mm secs mer ->
  Spec.wellFormedTime hh mm secs mer m = true ->
  normalizeTime time = Throw (TimeOutOfRange time) <->
  (23 < Spec.to24 m (digitsValue hh) \/ 59 < digitsValue mm)%Z.
Proof.
  intros Ht Hwf.
  rewrite (normalizeTime_wellFormed _ _ _ _ _ _ Ht Hwf). cbv zeta.
  destruct (Z.ltb_spec 23 (Spec.to24 m (digitsValue hh)));
    destruct (Z.ltb_spec 59 (digitsValue mm)); cbn [orb];
    split; try done; try lia; auto.
Qed.

Lemma time_out_of_range_iff_witness :
  normalizeTime (lit "13:00 PM") = Throw (TimeOutOfRange (lit "13:00 PM")) <->
  (23 < Spec.to24 (Some Spec.PM) (digitsValue (lit "13"))
   \/ 59 < digitsValue (lit "00"))%Z.
Proof.
  apply (time_out_of_range_iff (lit "13:00 PM") (lit "13") (lit "00") None
           (Some (lit " ", lit "PM")) (Some Spec.PM)); reflexivity.
Defined.

(** X7: seconds are checked for being two digits and then dropped: with
    or without them, and whatever they are, the result is the same. *)
Theorem seconds_dropped (hh mm ss : jsstring) mer m (out : jsstring) :
  Spec.wellFormedTime hh mm (Some ss) mer m = true ->
  normalizeTime (Spec.timeText hh mm (Some ss) mer) = Ok out <->
  normalizeTime (Spec.timeText hh mm None mer) = Ok out.
Proof.
  intros Hwf.
  assert (Spec.wellFormedTime hh mm None mer m = true) as Hwf'.
  { unfold Spec.wellFormedTime in *.
    apply andb_true_iff in Hwf as [[[H1 H2]%andb_true_iff _]%andb_true_iff H3].
    by rewrite H1, H2, H3. }
  pose proof (trim_timeText [] [] _ _ _ _ _ Hwf eq_refl eq_refl) as Ht.
  pose proof (trim_timeText [] [] _ _ _ _ _ Hwf' eq_refl eq_refl) as Ht'.
  cbn [app] in Ht, Ht'. rewrite app_nil_r in Ht, Ht'.
  rewrite (normalizeTime_wellFormed _ _ _ _ _ _ Ht Hwf).
  rewrite (normalizeTime_wellFormed _ _ _ _ _ _ Ht' Hwf'). cbv zeta.
  by destruct (_ || _).
Qed.

Lemma seconds_dropped_witness :
  normalizeTime (Spec.timeText (lit "7") (lit "05") (Some (lit "99")) None)
  = Ok (lit "07:05") <->
  normalizeTime (Spec.timeText (lit "7") (lit "05") None None)
  = Ok (lit "07:05").
Proof.
  apply (seconds_dropped (lit "7") (lit "05") (lit "99") None None
           (lit "07:05")). reflexivity.
Defined.

Lemma clock_canonical (hour : Z) (mm : jsstring) :
  (0 <= hour <= 23)%Z -> (digitsValue mm <= 59)%Z ->
  Nat.eqb (length mm) 2 && forallb isDigit mm = true ->
  canonicalTime (Spec.clock hour mm) = true.
Proof.
  intros Hh Hm Hmm.
  destruct (clock_wellFormed hour mm ltac:(lia) Hmm) as (_ & Hwf & Hv).
  apply andb_true_iff in Hmm as [Hl Hd].
  destruct mm as [|m1 [|m2 [|]]]; try done.
  unfold Spec.clock, canonicalTime. cbn [app].
  rewrite Hv. unfold Spec.wellFormedTime in Hwf.
  apply andb_true_iff in Hwf as [[[[_ Hhd]%andb_true_iff _]%andb_true_iff
    _]%andb_true_iff _].
  cbn [forallb] in *.
  apply andb_true_iff in Hhd as [-> [-> _]%andb_true_iff].
  apply andb_true_iff in Hd as [-> [-> _]%andb_true_iff].
  change (charIs 58 58) with true. cbn [andb].
  apply andb_true_iff. split; apply Z.leb_le; lia.
Qed.

(** X8: whatever the hook writes into the time field is canonical: two
    digits, a colon, two digits, with the hour at most 23 and the minute at
    most 59. *)
Theorem time_written_canonical (time out : jsstring) :
  normalizeTime time = Ok out -> canonicalTime out = true.
Proof.
  intros H. pose proof H as H0. unfold normalizeTime in H0.
  destruct (str_match timePattern (trim time)) as [found|] eqn:E; [| done].
  clear H0. apply timePattern_only in E as (hh & mm & secs & mer & m & Ht & Hwf).
  rewrite (normalizeTime_wellFormed _ _ _ _ _ _ Ht Hwf) in H. cbv zeta in H.
  unfold Spec.wellFormedTime in Hwf.
  apply andb_true_iff in Hwf as [[[[Hhl Hhd]%andb_true_iff
    Hmm]%andb_true_iff Hs]%andb_true_iff Hm].
  pose proof (to24_nonneg m _ (digitsValue_nonneg _ Hhd)) as Hh0.
  destruct (Z.ltb_spec 23 (Spec.to24 m (digitsValue hh))) as [|Hh]; [done |].
  destruct (Z.ltb_spec 59 (digitsValue mm)) as [|Hmin]; [done |].
  injection H as <-. apply clock_canonical; [lia | done | done].
Qed.

Lemma time_written_canonical_witness : canonicalTime (lit "19:05") = true.
Proof.
  apply (time_written_canonical (lit " 7:05:59pm ") (lit "19:05")).
  vm_compute. reflexivity.
Defined.

End MoreTimes.

(** ** More on dates *)

Section MoreCalendar.
Local Open Scope Z_scope.

Lemma dayFromYear_mono y y' : y <= y' -> dayFromYear y <= dayFromYear y'.
Proof. unfold dayFromYear. intros H. Z.to_euclidean_division_equations. lia. Qed.

Lemma validDate_bounds y m d :
  validDate y m d = true ->
  1 <= m <= 12 /\ 1 <= d <= 31
  /\ (m = 4 \/ m = 6 \/ m = 9 \/ m = 11 -> d <= 30)
  /\ (m = 2 -> d <= 29).
Proof.
  unfold validDate. intros H.
  apply andb_true_iff in H as [H H4]. apply andb_true_iff in H as [H H3].
  apply andb_true_iff in H as [H1 H2].
  apply Z.leb_le in H1, H2, H3, H4. unfold daysInMonth in H4.
  destruct (Z.eqb_spec m 2) as [->|].
  - destruct (isLeap y); lia.
  - destruct (Z.eqb_spec m 4), (Z.eqb_spec m 6), (Z.eqb_spec m 9),
      (Z.eqb_spec m 11); cbn in H4; lia.
Qed.


Lemma civil_of_valid y m d :
  validDate y m d = true -> civilFromDays (daysFromCivil y m d) = (y, m, d).
Proof.
  intros Hv. pose proof (validDate_bounds _ _ _ Hv) as (Hm & Hd & Hd30 & Hd29).
  assert (m = 2 -> d = 29 -> (y mod 4 = 0 /\ y mod 100 <> 0) \/ y mod 400 = 0)
    as Hleap.
  { intros -> ->. unfold validDate, daysInMonth, isLeap in Hv.
    cbn [Z.eqb Z.leb Z.compare Pos.compare Pos.compare_cont Pos.eqb andb] in Hv.
    destruct (Z.eqb_spec (y mod 4) 0), (Z.eqb_spec (y mod 100) 0),
      (Z.eqb_spec (y mod 400) 0); cbn in Hv; try discriminate; lia. }
  unfold daysFromCivil.
  set (y' := if m <=? 2 then y - 1 else y).
  set (era := y' / 400).
  set (yoe := y' - era * 400).
  set (mp := if 2 <? m then m - 3 else m + 9).
  set (doy := (153 * mp + 2) / 5 + d - 1).
  set (doe := yoe * 365 + yoe / 4 - yoe / 100 + doy).
  cbv zeta.
  assert (0 <= yoe <= 399) as Hyoe
    by (unfold yoe, era; Z.to_euclidean_division_equations; lia).
  assert (0 <= mp <= 11 /\ (m = if mp <? 10 then mp + 3 else mp - 9)
          /\ (m <= 2 <-> 10 <= mp)) as (Hmp & Hmm & Hm2)
    by (unfold mp; destruct (Z.ltb_spec 2 m);
        [destruct (Z.ltb_spec (m - 3) 10) | destruct (Z.ltb_spec (m + 9) 10)]; lia).
  assert (0 <= doy <= 365 /\ (doy = 365 -> m = 2 /\ d = 29)
          /\ (5 * doy + 2) / 153 = mp
          /\ doy - (153 * mp + 2) / 5 + 1 = d) as (Hdoy & Hdoy365 & Hmp' & Hd').
  { unfold doy.
    assert (mp = 0 \/ mp = 1 \/ mp = 2 \/ mp = 3 \/ mp = 4 \/ mp = 5 \/ mp = 6
            \/ mp = 7 \/ mp = 8 \/ mp = 9 \/ mp = 10 \/ mp = 11) as Hc by lia.
    assert (m = 2 <-> mp = 11) as Hfeb
      by (unfold mp; destruct (Z.ltb_spec 2 m); lia).
    assert (m = 4 \/ m = 6 \/ m = 9 \/ m = 11 <->
            mp = 1 \/ mp = 3 \/ mp = 6 \/ mp = 8) as H30
      by (unfold mp; destruct (Z.ltb_spec 2 m); lia).
    clearbody mp. clear Hmm.
    destruct Hc as [E|[E|[E|[E|[E|[E|[E|[E|[E|[E|[E|E]]]]]]]]]]]; subst mp;
      (split; [| split; [| split]]);
      try (Z.to_euclidean_division_equations; lia). }
  assert (doy = 365 -> yoe mod 4 = 3 /\ (yoe mod 100 <> 99 \/ yoe = 399)) as Hl.
  { intros E. destruct (Hdoy365 E) as [-> ->].
    specialize (Hleap eq_refl eq_refl).
    unfold yoe, era, y'. cbn [Z.leb Z.compare Pos.compare Pos.compare_cont].
    Z.to_euclidean_division_equations. lia. }
  assert (0 <= doe < 146097) as Hdoe
    by (unfold doe; Z.to_euclidean_division_equations; lia).
  unfold civilFromDays. cbv zeta.
  replace (era * 146097 + doe - 719468 + 719468) with (doe + era * 146097) by lia.
  rewrite Z.div_add by lia. rewrite (Z.div_small doe) by lia.
  replace (doe + era * 146097 - (0 + era) * 146097) with doe by lia.
  assert ((doe - doe / 1460 + doe / 36524 - doe / 146096) / 365 = yoe) as ->
    by (unfold doe in *; Z.to_euclidean_division_equations; lia).
  replace (doe - (365 * yoe + yoe / 4 - yoe / 100)) with doy by (unfold doe; lia).
  rewrite Hmp', Hd', <- Hmm.
  do 2 f_equal.
  unfold yoe, y'. destruct (Z.leb_spec m 2); lia.
Qed.

End MoreCalendar.

Section MoreDates.
Local Open Scope Z_scope.
Variable engineParse : jsstring -> num.

Lemma daysFromCivil_range y m d :
  validDate y m d = true -> 0 <= y <= 9999 ->
  -100000000 <= daysFromCivil y m d <= 100000000.
Proof.
  intros Hv Hy. pose proof (year_of_day _ _ _ Hv) as H.
  pose proof (dayFromYear_mono 0 y ltac:(lia)).
  pose proof (dayFromYear_mono (y + 1) 10000 ltac:(lia)).
  assert (dayFromYear 0 = -719528) by reflexivity.
  assert (dayFromYear 10000 = 2932897) by reflexivity. lia.
Qed.

(** X9: a date given as YYYY-MM-DD that names a day of the calendar is
    stored as it was given, whatever the engine and its time zone. *)
Theorem calendar_date_kept (y m d : Z) :
  validDate y m d = true -> 0 <= y <= 9999 ->
  normalizeDate engineParse (isoDate y m d) = Ok (isoDate y m d)
  /\ Spec.calendarForm (isoDate y m d) = true.
Proof.
  intros Hv Hy. pose proof (daysFromCivil_range _ _ _ Hv Hy) as Hr.
  pose proof (normalizeDate_isoDate engineParse _ Hr) as H.
  rewrite (civil_of_valid _ _ _ Hv) in H. split; [done |].
  assert (Date_new engineParse (isoDate y m d)
          = Int (daysFromCivil y m d * msPerDay)) as Hn.
  { unfold Date_new, Date_parse.
    rewrite parseIsoDateOnly_isoDate by (done || lia). unfold timeClip.
    destruct (Z.leb_spec (Z.abs (daysFromCivil y m d * msPerDay)) maxTime);
      [done |]. unfold msPerDay, maxTime in *. lia. }
  apply (normalizeDate_calendarForm engineParse _ _ _ Hn); [| done].
  rewrite Z.div_mul by done. by rewrite (civil_of_valid _ _ _ Hv).
Qed.

(** X10: the hook throws exactly when the parsed time value is NaN;
    otherwise it stores the UTC day of the parsed instant, written as
    YYYY-MM-DD whenever the UTC year is between 0 and 9999. *)
Theorem date_stored_as_utc_day (date : jsstring) :
  (normalizeDate engineParse date = Throw (InvalidDateValue date) <->
   Date_new engineParse date = NaN)
  /\ forall t, Date_new engineParse date = Int t ->
       let '(y, m, d) := civilFromDays (t / msPerDay) in
       normalizeDate engineParse date = Ok (isoDate y m d)
       /\ (0 <= y <= 9999 -> Spec.calendarForm (isoDate y m d) = true).
Proof.
  split.
  - rewrite normalizeDate_Throw. split; [by intros [? _] | done].
  - intros t Ht.
    assert (normalizeDate engineParse date
            = Ok (let '(y, m, d) := civilFromDays (t / msPerDay) in isoDate y m d))
      as Hn by (apply normalizeDate_Ok; by exists t).
    destruct (civilFromDays (t / msPerDay)) as [[y m] d] eqn:Ec.
    split; [done |]. intros Hy.
    apply (normalizeDate_calendarForm engineParse date _ t Ht); [| done].
    by rewrite Ec.
Qed.

End MoreDates.

Lemma calendar_date_kept_witness :
  normalizeDate (Samples.localEngine 600) (isoDate 2025 3 5)
  = Ok (isoDate 2025 3 5)
  /\ Spec.calendarForm (isoDate 2025 3 5) = true.
Proof.
  apply (calendar_date_kept (Samples.localEngine 600) 2025 3 5);
    [reflexivity | lia].
Defined.

Lemma date_stored_as_utc_day_witness :
  normalizeDate (Samples.localEngine 600) (lit "March 5, 2025")
  = Ok (isoDate 2025 3 4)
  /\ ((0 <= 2025 <= 9999)%Z -> Spec.calendarForm (isoDate 2025 3 4) = true).
Proof.
  exact (proj2 (date_stored_as_utc_day (Samples.localEngine 600)
                  (lit "March 5, 2025")) 1741096800000%Z eq_refl).
Defined.

(** ** The order of the hook's steps *)

(** X11: the hook stops at its first failure.  A date that does not parse
    is reported whatever the time is, and leaves date and time as they were;
    a bad time is reported only once the date has been rewritten, and the
    document in memory then carries the rewritten date with the old time.
    The hook succeeds exactly when both normalizations do. *)
Theorem hook_stops_at_first_failure (engineParse : jsstring -> num)
    (st : DocState) (this : IEvent) :
  let after := fst (EventModel.preSave engineParse st this) in
  let thrown := snd (EventModel.preSave engineParse st this) in
  (forall e, normalizeDate engineParse (date this) = Throw e ->
     thrown = Some e /\ date after = date this /\ time after = time this)
  /\ (forall d e, normalizeDate engineParse (date this) = Ok d ->
        normalizeTime (time this) = Throw e ->
        thrown = Some e /\ date after = d /\ time after = time this)
  /\ (thrown = None <->
      exists d t, normalizeDate engineParse (date this) = Ok d
                  /\ normalizeTime (time this) = Ok t).
Proof.
  cbv zeta. unfold EventModel.preSave.
  destruct (isNew st || isModified st "title"); cbn [date time set_slug];
    destruct (normalizeDate engineParse (date this)) as [d|e];
    cbn [date time set_slug set_date fst snd];
    try destruct (normalizeTime (time this)) as [t|e'];
    cbn [date time set_slug set_date set_time fst snd];
    (split_and!;
     [ intros ? [=]; subst; done
     | intros ? ? [=] [=]; subst; done
     | split; [intros [=]; eauto | intros (? & ? & [=] & [=]); done] ]).
Qed.

Lemma hook_stops_at_first_failure_witness :
  snd (EventModel.preSave (Samples.localEngine 600) Samples.created
         MoreSamples.misdated)
  = Some (TimeOutOfRange (lit "25:00"))
  /\ date (fst (EventModel.preSave (Samples.localEngine 600) Samples.created
                  MoreSamples.misdated)) = lit "2025-03-04"
  /\ time (fst (EventModel.preSave (Samples.localEngine 600) Samples.created
                  MoreSamples.misdated)) = lit "25:00".
Proof.
  apply (proj1 (proj2 (hook_stops_at_first_failure (Samples.localEngine 600)
                         Samples.created MoreSamples.misdated))
           (lit "2025-03-04") (TimeOutOfRange (lit "25:00")));
    reflexivity.
Defined.

(** * The email pattern *)

Section MoreEmail.
Import Email.

Lemma star_complete {R} (p : N -> bool) (k : @cont R) (rest : jsstring) caps :
  (forall n', is_Some (k n' rest caps)) ->
  forall (pre : jsstring) n, forallb p pre = true ->
    is_Some (star p n (pre ++ rest) caps k).
Proof.
  intros Hk. induction pre as [|c pre IH]; intros n Hp.
  - cbn [app]. destruct rest as [|c rest']; cbn [star]; [apply Hk |].
    destruct (p c); [| apply Hk].
    destruct (star p (S n) rest' caps k); [done | apply Hk].
  - simpl in Hp. apply andb_true_iff in Hp as [Hc Hp].
    cbn [app star]. rewrite Hc.
    destruct (IH (S n) Hp) as [x ->]. done.
Qed.

(** Whatever the pattern denotes, the matcher finds some way to match. *)
Lemma rmatch_complete {R} (r : regex) :
  startFree r = true ->
  forall (k : @cont R) (pre rest : jsstring),
    denote r pre rest ->
    (forall n' caps', is_Some (k n' rest caps')) ->
    forall n caps, is_Some (rmatch r n (pre ++ rest) caps k).
Proof.
  induction r as [|p|r1 IH1 r2 IH2|r1 IH1 r2 IH2|p|i r IH| |];
    intros Hf k pre rest Hd Hk n caps; cbn [rmatch denote startFree] in *.
  - subst. apply Hk.
  - destruct Hd as (c & -> & Hc). cbn [app]. rewrite Hc. apply Hk.
  - apply andb_true_iff in Hf as [Hf1 Hf2].
    destruct Hd as (p1 & p2 & -> & H1 & H2). rewrite <- app_assoc.
    apply IH1; [done | done |]. intros n' caps'. by apply IH2.
  - apply andb_true_iff in Hf as [Hf1 Hf2].
    destruct Hd as [H1 | H2].
    + destruct (IH1 Hf1 k pre rest H1 Hk n caps) as [x ->]. done.
    + destruct (rmatch r1 n (pre ++ rest) caps k); [done |]. by apply IH2.
  - apply star_complete; [intros; apply Hk | done].
  - apply IH; [done | done |]. intros n' caps'. apply Hk.
  - done.
  - destruct Hd as [-> ->]. apply Hk.
Qed.

Lemma exec_anchored_later (r : regex) (s : jsstring) : forall n,
  exec (Seq Bol r) (S n) s = None.
Proof. induction s as [|c s IH]; intros n; cbn; [done | apply IH]. Qed.

Lemma test_anchored (r : regex) (s : jsstring) :
  test (Seq Bol r) s = true <->
  is_Some (rmatch r 0 s [] (fun n' s' caps' => Some (Found 0 n' s' caps'))).
Proof.
  unfold test, str_match.
  assert (exec (Seq Bol r) 0 s
          = rmatch r 0 s [] (fun n' s' caps' => Some (Found 0 n' s' caps'))) as ->.
  { destruct s as [|c s]; cbn [exec rmatch Nat.eqb].
    - by destruct (rmatch _ _ _ _ _).
    - rewrite exec_anchored_later. by destruct (rmatch _ _ _ _ _). }
  destruct (rmatch _ _ _ _ _); split; try done; by intros [? ?].
Qed.

Lemma plus_denotes (p : N -> bool) (pre rest : jsstring) :
  denote (Plus p) pre rest <->
  negb (Nat.eqb (length pre) 0) && forallb p pre = true.
Proof.
  cbn. split.
  - intros (p1 & p2 & -> & (c & -> & Hc) & Hp). simpl. by rewrite Hc.
  - destruct pre as [|c pre]; [done |]. simpl.
    intros [Hc Hp]%andb_true_iff. exists [c], pre. split_and!; [done | by exists c | done].
Qed.

Lemma email_shape (v : jsstring) :
  validator v = true <->
  exists name host tld,
    v = name ++ 64%N :: host ++ 46%N :: tld
    /\ word name = true /\ word host = true /\ word tld = true.
Proof.
  unfold validator, EMAIL_REGEX. rewrite test_anchored. split.
  - intros [x H].
    apply rmatch_sound in H as (pre & rest & n' & caps' & -> & H & _).
    cbn [denote] in H.
    destruct H as (name & p1 & -> & Hn & a & p2 & -> & (c1 & -> & Hc1) &
                   host & p3 & -> & Hh & b & p4 & -> & (c2 & -> & Hc2) &
                   tld & p5 & -> & Ht & -> & ->).
    apply plus_denotes in Hn, Hh, Ht.
    unfold charIs in Hc1, Hc2. apply N.eqb_eq in Hc1 as ->, Hc2 as ->.
    exists name, host, tld. split_and!; try done.
    cbn [app]. by rewrite !app_nil_r.
  - intros (name & host & tld & -> & Hn & Hh & Ht).
    pose proof (rmatch_complete
      (Seq (Plus plain) (Seq (Char (charIs 64)) (Seq (Plus plain)
        (Seq (Char (charIs 46)) (Seq (Plus plain) Eol))))) eq_refl
      (fun n' s' caps' => Some (Found 0 n' s' caps'))
      (name ++ 64%N :: host ++ 46%N :: tld) []) as H.
    rewrite app_nil_r in H. apply H; [| by eauto].
    cbn [denote].
    exists name, (64%N :: host ++ 46%N :: tld).
    split; [done |]. split; [by apply (plus_denotes plain) |].
    exists [64%N], (host ++ 46%N :: tld).
    split; [done |]. split; [by exists 64%N |].
    exists host, (46%N :: tld).
    split; [done |]. split; [by apply (plus_denotes plain) |].
    exists [46%N], tld.
    split; [done |]. split; [by exists 46%N |].
    exists tld, [].
    split; [by rewrite app_nil_r |]. split; [by apply (plus_denotes plain) | done].
Qed.

Lemma word_plain (s : jsstring) :
  word s = true ->
  List.filter (charIs 64) s = []
  /\ forallb (fun c => negb (isWhiteSpace c)) s = true.
Proof.
  intros [_ H]%andb_true_iff. induction s as [|c s IH]; [done |].
  simpl in H. apply andb_true_iff in H as [Hc Hs].
  destruct (IH Hs) as [IH1 IH2]. unfold plain in Hc.
  apply negb_true_iff, orb_false_iff in Hc as [Hw Ha].
  simpl. by rewrite Ha, Hw, IH1, IH2.
Qed.

(** X12: the validator of booking.model.ts accepts exactly the texts made
    of a non-empty part, an at sign, a non-empty part, a dot and a non-empty
    part, where no part holds white space or an at sign; so an accepted
    address holds exactly one at sign and no white space. *)
Theorem email_accepted_iff (v : jsstring) :
  (validator v = true <->
   exists name host tld,
     v = name ++ 64%N :: host ++ 46%N :: tld
     /\ word name = true /\ word host = true /\ word tld = true)
  /\ (validator v = true ->
      length (List.filter (charIs 64) v) = 1%nat
      /\ forallb (fun c => negb (isWhiteSpace c)) v = true).
Proof.
  split; [apply email_shape |].
  intros (name & host & tld & -> & Hn & Hh & Ht)%email_shape.
  destruct (word_plain _ Hn) as [Hn1 Hn2].
  destruct (word_plain _ Hh) as [Hh1 Hh2].
  destruct (word_plain _ Ht) as [Ht1 Ht2].
  rewrite List.filter_app, forallb_app. cbn [List.filter forallb].
  change (charIs 64 64) with true. cbn iota.
  rewrite List.filter_app, forallb_app. cbn [List.filter forallb].
  change (charIs 64 46) with false. cbn iota.
  change (isWhiteSpace 64) with false. change (isWhiteSpace 46) with false.
  rewrite Hn1, Hh1, Ht1, Hn2, Hh2, Ht2. done.
Qed.

Lemma email_accepted_iff_witness :
  length (List.filter (charIs 64) (lit "ada@example.com")) = 1%nat
  /\ forallb (fun c => negb (isWhiteSpace c)) (lit "ada@example.com") = true.
Proof.
  apply (proj2 (email_accepted_iff (lit "ada@example.com"))).
  vm_compute. reflexivity.
Defined.

End MoreEmail.

(** * More on the Booking hooks *)

Section MoreBookings.

(** X13: what the guarded hook reports depends on what Mongoose hands
    it.  Handed the callback, it reports nothing but validation errors:
    when the lookup itself fails, the failure is caught and reported as the
    validation error for a bad identity or a database error.  Handed no
    callback, it rejects every save with the TypeError of its call of
    [next], whether or not the event is there.  Either way it writes to
    neither collection. *)
Theorem guarded_hook_outcomes (next : hookArg)
    (st : DocState) (booking : IBooking) (db : Db) :
  let db' := fst (BookingSchema_preSave next st booking db) in
  let thrown := snd (BookingSchema_preSave next st booking db) in
  bookings db' = bookings db /\ events db' = events db
  /\ (next = Callback ->
      (forall e, thrown = inl e -> exists why, e = ValidationError why)
      /\ (isModified st "eventId" || isNew st = true -> reachable db = false ->
          thrown = inl (ValidationError InvalidIdOrDatabaseError)))
  /\ (next = NotAFunction -> thrown = inl TypeError).
Proof.
  cbv zeta. destruct (isModified st "eventId" || isNew st) eqn:Eg.
  - rewrite BookingSchema_preSave_checks by done. cbn [fst snd].
    split; [done |]. split; [done |]. split; [| by intros ->].
    intros ->. split; [| by intros _ ->].
    intros e. destruct (reachable db); [| intros [= <-]; by eexists].
    destruct (events db !! eventId booking); [done |].
    intros [= <-]. by eexists.
  - apply orb_false_iff in Eg as [Hm Hn].
    rewrite BookingSchema_preSave_skips by done. cbn [fst snd].
    split; [done |]. split; [done |]. split; [| by intros ->].
    intros ->. done.
Qed.

Lemma guarded_hook_outcomes_witness :
  snd (BookingSchema_preSave Callback Samples.created Samples.kept
         {| events := ∅; bookings := ∅; reachable := false; lookups := [] |})
  = inl (ValidationError InvalidIdOrDatabaseError)
  /\ snd (BookingSchema_preSave NotAFunction Samples.created Samples.kept
            Samples.announced)
     = inl TypeError.
Proof.
  split.
  - apply (guarded_hook_outcomes Callback Samples.created Samples.kept
             {| events := ∅; bookings := ∅; reachable := false;
                lookups := [] |}); reflexivity.
  - apply (guarded_hook_outcomes NotAFunction Samples.created Samples.kept
             Samples.announced); reflexivity.
Defined.

(** X14: the hook of booking.model.ts looks the event up on every save,
    whatever was modified; it lets the save go on exactly when the lookup
    gets through and finds the event, and a failing lookup surfaces as it
    is, not as a validation error. *)
Theorem plain_hook_always_checks (st : DocState) (this : IBooking) (db : Db) :
  let db' := fst (bookingSchema_preSave st this db) in
  let thrown := snd (bookingSchema_preSave st this db) in
  lookups db' = eventId this :: lookups db
  /\ bookings db' = bookings db /\ events db' = events db
  /\ (thrown = inr tt <->
      reachable db = true /\ is_Some (events db !! eventId this))
  /\ (reachable db = false -> thrown = inl DatabaseError).
Proof.
  cbv zeta. rewrite bookingSchema_preSave_checks. cbn [fst snd log_lookup lookups bookings events].
  split_and!; try done.
  - destruct (reachable db); [| split; [done | by intros [? _]]].
    destruct (events db !! eventId this) eqn:E.
    + split; [by eauto | done].
    + split; [done | intros [_ [? ?]]; done].
  - by intros ->.
Qed.

(** X15: a booking that was saved refers to an event that was there when
    it was saved: under the schema of booking.model.ts always; under the
    guarded schema, where a save goes through only if Mongoose hands the
    hook the callback, when the booking is new or its eventId was
    modified. *)
Theorem saved_booking_has_its_event (validator : jsstring -> bool)
    (next : hookArg) (now : Z) (st : DocState) (doc : IBooking) (db : Db) :
  (snd (save (bookingSchema validator) now st doc db) = inr tt ->
   is_Some (events db !! eventId doc))
  /\ (snd (save (BookingSchema validator next) now st doc db) = inr tt ->
      next = Callback
      /\ (isModified st "eventId" || isNew st = true ->
          is_Some (events db !! eventId doc))).
Proof.
  split.
  - unfold save, mbind, M_bind, bind. rewrite validate_bookings.
    simpl_db.
    destruct (validator (email doc)); [| done].
    rewrite bookingSchema_preSave_checks.
    destruct (reachable db); [| done].
    destruct (events db !! eventId doc); [by eauto | done].
  - unfold save, mbind, M_bind, bind. rewrite validate_bookings.
    simpl_db.
    destruct (validator (email doc)); [| done].
    destruct (isModified st "eventId" || isNew st) eqn:Eg.
    + rewrite BookingSchema_preSave_checks by done.
      destruct next; [| done].
      destruct (reachable db); [| done].
      destruct (events db !! eventId doc); [by eauto | done].
    + apply orb_false_iff in Eg as [Hm Hn].
      rewrite BookingSchema_preSave_skips by done.
      destruct next; done.
Qed.

Lemma saved_booking_has_its_event_witness :
  is_Some (events Samples.announced !! eventId Samples.kept).
Proof.
  apply (proj1 (saved_booking_has_its_event Samples.anyEmail NotAFunction 5
                  Samples.created Samples.kept Samples.announced));
    reflexivity.
Defined.

End MoreBookings.

(** * More on the cached connection *)

Section MoreConnection.
Import Calls.
Variable settle : nat -> settled.

(** The function is its two stretches, one after the other. *)
Lemma connectToDatabase_stretches (p : Process) :
  connectToDatabase settle p =
  match connectBegin p with
  | (p1, inl c) => (p1, inr c)
  | (p1, inr a) => connectResume settle a p1
  end.
Proof.
  unfold connectToDatabase, connectBegin, connectResume.
  destruct (conn (cached p)); [done |].
  destruct (promise (cached p)); cbn; by destruct (settle _).
Qed.

Lemma load_unstarted uri p : load uri = Some p -> unstarted p.
Proof. destruct uri as [[|? ?]|]; simpl; intros [= <-]; done. Qed.

Lemma connect_started (p : Process) :
  unstarted p \/ started settle p ->
  started settle (fst (connectToDatabase settle p))
  /\ snd (connectToDatabase settle p) = outcome (settle 0).
Proof.
  unfold connectToDatabase, started, unstarted, outcome.
  intros [(Hp & Ha & Hc) | (Hp & Ha & [Hc | (m & Hc & Hm)])];
    rewrite Hc, ?Hp, ?Ha; cbn.
  - destruct (settle 0) eqn:E; cbn; split_and!; eauto.
  - destruct (settle 0) eqn:E; cbn; rewrite ?Hp, ?Ha; split_and!; eauto.
  - rewrite Hp, Ha, Hc, Hm. split_and!; eauto.
Qed.

(** X16: however often the function is called, one call after the other,
    in a process that has loaded the module, the server is asked to connect
    once, and every call gets what that one attempt gave: the same
    connection, or the same rejection. *)
Theorem one_attempt_for_all_calls (uri : option jsstring) (p : Process)
    (n : nat) :
  load uri = Some p ->
  attempts (fst (callTimes settle (S n) p)) = 1%nat
  /\ Forall (fun r => r = outcome (settle 0)) (snd (callTimes settle (S n) p)).
Proof.
  intros Hl%load_unstarted.
  assert (forall k q, started settle q ->
            started settle (fst (callTimes settle k q))
            /\ Forall (fun r => r = outcome (settle 0))
                 (snd (callTimes settle k q))) as Hrest.
  { induction k as [|k IH]; intros q Hq; cbn [callTimes]; [done |].
    destruct (connect_started q (or_intror Hq)) as [Hs Hr].
    destruct (connectToDatabase settle q) as [q1 r]. cbn [fst snd] in *.
    destruct (IH q1 Hs) as [Hs' Hrs].
    destruct (callTimes settle k q1) as [q2 rs]. cbn [fst snd] in *.
    split; [done |]. by constructor. }
  cbn [callTimes].
  destruct (connect_started p (or_introl Hl)) as [Hs Hr].
  destruct (connectToDatabase settle p) as [p1 r]. cbn [fst snd] in *.
  destruct (Hrest n p1 Hs) as [(_ & Ha & _) Hrs].
  destruct (callTimes settle n p1) as [p2 rs]. cbn [fst snd] in *.
  split; [done |]. by constructor.
Qed.

Lemma step_settledOnce (r r' : Run) :
  settledOnce settle r -> step settle r r' -> settledOnce settle r'.
Proof.
  intros Hr Hs. destruct Hs as [r p1 c Hb | r p1 a Hb | r w1 a w2 p1 res Hw Hres];
    unfold settledOnce, started, unstarted, connectBegin, connectResume in *;
    cbn [proc waiting returned].
  - destruct Hr as [((Hp & Ha & Hc) & _) | ((Hp & Ha & Hc) & Hw & Hret)].
    { rewrite Hc, Hp in Hb. done. }
    destruct Hc as [Hc | (m & Hc & Hm)]; rewrite Hc in *.
    + by rewrite Hp in Hb.
    + injection Hb as <- <-. right. split_and!; eauto.
      constructor; [by rewrite Hm | done].
  - destruct Hr as [((Hp & Ha & Hc) & Hw & Hret) | ((Hp & Ha & Hc) & Hw & Hret)].
    + rewrite Hc, Hp, Ha in Hb. injection Hb as <- <-. cbn.
      right. rewrite Hw, Hret. split_and!; eauto.
    + destruct Hc as [Hc | (m & Hc & Hm)]; rewrite Hc in *; [| done].
      rewrite Hp in Hb. injection Hb as <- <-.
      right. split_and!; eauto.
  - destruct Hr as [(_ & Hw' & _) | ((Hp & Ha & Hc) & Hw' & Hret)].
    + rewrite Hw' in Hw. by destruct w1.
    + rewrite Hw in Hw'. apply Forall_app in Hw' as [Hw1 Hw2].
      apply Forall_cons in Hw2 as [-> Hw2].
      right. destruct (settle 0) eqn:E; injection Hres as <- <-; cbn.
      * split_and!; eauto using Forall_app_2.
      * split_and!; eauto using Forall_app_2.
Qed.

(** X17: with any number of calls in flight together, started and
    resumed in any order in a process that has loaded the module, the
    server is asked to connect at most once, every suspended caller waits
    for that one attempt, and every caller that has returned got what that
    attempt gave. *)
Theorem one_attempt_for_calls_in_flight (uri : option jsstring)
    (p : Process) (r : Run) :
  load uri = Some p ->
  rtc (step settle) {| proc := p; waiting := []; returned := [] |} r ->
  (attempts (proc r) <= 1)%nat
  /\ Forall (fun a => a = 0%nat) (waiting r)
  /\ Forall (fun x => x = outcome (settle 0)) (returned r).
Proof.
  intros Hl%load_unstarted Hrun.
  assert (settledOnce settle r) as H.
  { assert (settledOnce settle
              {| proc := p; waiting := []; returned := [] |}) as H0
      by (by left).
    revert H0. induction Hrun as [|r0 r1 r2 Hs Hrun IH]; [done |].
    intros H0. apply IH. by eapply step_settledOnce. }
  destruct H as [((_ & Ha & _) & -> & ->) | ((_ & Ha & _) & Hw & Hret)];
    rewrite Ha; split_and!; auto.
Qed.

End MoreConnection.

Lemma one_attempt_for_all_calls_witness :
  attempts (fst (Calls.callTimes Samples.flaky 3 Samples.fresh)) = 1%nat
  /\ Forall (fun r => r = Calls.outcome (Samples.flaky 0))
       (snd (Calls.callTimes Samples.flaky 3 Samples.fresh)).
Proof.
  apply (one_attempt_for_all_calls Samples.flaky MoreSamples.connectionString
           Samples.fresh 2). reflexivity.
Defined.

Lemma one_attempt_for_calls_in_flight_witness :
  (attempts (Calls.proc MoreSamples.twoWaiting) <= 1)%nat
  /\ Forall (fun a => a = 0%nat) (Calls.waiting MoreSamples.twoWaiting)
  /\ Forall (fun x => x = Calls.outcome (Samples.flaky 0))
       (Calls.returned MoreSamples.twoWaiting).
Proof.
  apply (one_attempt_for_calls_in_flight Samples.flaky
           MoreSamples.connectionString Samples.fresh MoreSamples.twoWaiting);
    [reflexivity |].
  eapply rtc_l; [by apply Calls.step_wait |]. cbn.
  eapply rtc_l; [by apply Calls.step_wait |]. cbn.
  eapply rtc_l; [by apply Calls.step_wait |]. cbn.
  eapply rtc_l; [by apply (Calls.step_resume Samples.flaky _ [0%nat] 0%nat [0%nat]) |].
  cbn. apply rtc_refl.
Defined.

(** * The guard against registering a model twice *)

(** X18: of the two Booking definitions, the one evaluated first is the
    one in force: evaluating the other afterwards, or the same once more,
    yields the model already registered and leaves the registry as it is. *)
Theorem first_booking_definition_stays (models : gmap string Registry.schema) :
  let first := Registry.Booking_guarded models in
  let first' := Registry.Booking_plain models in
  Registry.Booking_plain (fst first) = (fst first, snd first)
  /\ Registry.Booking_guarded (fst first) = (fst first, snd first)
  /\ Registry.Booking_guarded (fst first') = (fst first', snd first')
  /\ fst (Registry.Event (fst first)) !! "Booking"%string = Some (snd first).
Proof.
  cbv zeta.
  unfold Registry.Booking_guarded, Registry.Booking_plain, Registry.Event,
    Registry.modelOr.
  destruct (models !! "Booking"%string) as [m|] eqn:E; cbn [fst snd].
  - rewrite E. split_and!; try done.
    destruct (models !! "Event"%string); cbn [fst]; [done |].
    by rewrite lookup_insert_ne.
  - rewrite !lookup_insert_eq. split_and!; try done.
    destruct (_ !! "Event"%string); cbn [fst]; [by rewrite lookup_insert_eq |].
    rewrite lookup_insert_ne by done. by rewrite lookup_insert_eq.
Qed.

(** * The email pattern of the guarded schema *)

Section MoreAddress.
Import Address.

Lemma many_sound {R} (m : nat -> jsstring -> @Address.cont R -> option R)
    (d : jsstring -> jsstring -> Prop) :
  (forall n s k x, m n s k = Some x ->
     exists pre rest n', s = pre ++ rest /\ d pre rest /\ k n' rest = Some x) ->
  forall fuel n s k x, many m fuel n s k = Some x ->
    exists ws rest n',
      s = concat ws ++ rest /\ denoteMany d ws rest /\ k n' rest = Some x.
Proof.
  intros Hm. induction fuel as [|f IH]; intros n s k x H; cbn [many] in H.
  - by exists [], s, n.
  - destruct (m n s _) as [y|] eqn:E; [| by exists [], s, n].
    injection H as ->. apply Hm in E as (pre & rest1 & n1 & -> & Hd & Hk).
    destruct (Nat.ltb_spec (length rest1) (length (pre ++ rest1))) as [Hlt|];
      [| done].
    apply IH in Hk as (ws & rest & n' & -> & Hws & Hk).
    exists (pre :: ws), rest, n'. cbn [concat denoteMany].
    rewrite app_assoc. split; [done |]. split; [| done].
    split; [| done]. intros ->. simpl in Hlt. lia.
Qed.

(** Whatever the matcher finds is in the denotation of the pattern. *)
Lemma pmatch_sound {R} (r : pattern) : forall n s (k : @Address.cont R) x,
  pmatch r n s k = Some x ->
  exists pre rest n',
    s = pre ++ rest /\ Address.denote r pre rest /\ k n' rest = Some x.
Proof.
  induction r as [|p|a IHa b IHb|a IHa b IHb|a IHa| |]; intros n s k x H;
    cbn [pmatch] in H.
  - by exists [], s, n.
  - destruct s as [|c s]; [done |]. destruct (p c) eqn:E; [| done].
    exists [c], s, (S n). split; [done |]. split; [by exists c | done].
  - apply IHa in H as (p1 & r1 & n1 & -> & Ha & H).
    apply IHb in H as (p2 & rest & n2 & -> & Hb & H).
    exists (p1 ++ p2), rest, n2. rewrite <- app_assoc.
    split; [done |]. split; [by exists p1, p2 | done].
  - destruct (pmatch a n s k) eqn:E.
    + injection H as ->. apply IHa in E as (pre & rest & n' & -> & Hd & Hk).
      exists pre, rest, n'. split; [done |]. split; [by left | done].
    + apply IHb in H as (pre & rest & n' & -> & Hd & Hk).
      exists pre, rest, n'. split; [done |]. split; [by right | done].
  - apply (many_sound _ (Address.denote a) IHa) in H
      as (ws & rest & n' & -> & Hws & Hk).
    exists (concat ws), rest, n'. split; [done |]. split; [by exists ws | done].
  - destruct (Nat.eqb n 0); [| done]. by exists [], s, n.
  - destruct s; [| done]. by exists [], [], n.
Qed.

Lemma many_complete {R} (m : nat -> jsstring -> @Address.cont R -> option R)
    (d : jsstring -> jsstring -> Prop) :
  (forall n pre rest k, d pre rest -> (forall n', is_Some (k n' rest)) ->
     is_Some (m n (pre ++ rest) k)) ->
  forall (k : Address.cont) rest, (forall n', is_Some (k n' rest)) ->
  forall ws fuel n, denoteMany d ws rest ->
    (length (concat ws ++ rest) <= fuel)%nat ->
    is_Some (many m fuel n (concat ws ++ rest) k).
Proof.
  intros Hm k rest Hk. induction ws as [|w ws IH]; intros fuel n Hd Hf.
  - cbn [concat app]. destruct fuel; cbn [many]; [apply Hk |].
    destruct (m _ _ _); [done | apply Hk].
  - destruct Hd as (Hw & Hd & Hws). cbn [concat] in *.
    rewrite <- app_assoc in *.
    assert (length (concat ws ++ rest) < length (w ++ concat ws ++ rest))%nat
      as Hlt.
    { rewrite (length_app w). destruct w; [done | simpl; lia]. }
    destruct fuel as [|f]; [lia |]. cbn [many].
    destruct (Hm n w (concat ws ++ rest)
                (fun n' s' =>
                   if Nat.ltb (length s') (length (w ++ concat ws ++ rest))
                   then many m f n' s' k else None) Hd) as [x ->]; [| done].
    intros n'. apply Nat.ltb_lt in Hlt as Hb. rewrite Hb.
    apply IH; [done | lia].
Qed.

(** Whatever a pattern without the start anchor denotes, the matcher finds
    some way to match. *)
Lemma pmatch_complete {R} (r : pattern) :
  Address.startFree r = true ->
  forall (k : @Address.cont R) (pre rest : jsstring),
    Address.denote r pre rest ->
    (forall n', is_Some (k n' rest)) ->
    forall n, is_Some (pmatch r n (pre ++ rest) k).
Proof.
  induction r as [|p|a IHa b IHb|a IHa b IHb|a IHa| |];
    intros Hf k pre rest Hd Hk n;
    cbn [pmatch Address.denote Address.startFree] in *.
  - subst. apply Hk.
  - destruct Hd as (c & -> & Hc). cbn [app]. rewrite Hc. apply Hk.
  - apply andb_true_iff in Hf as [Hf1 Hf2].
    destruct Hd as (p1 & p2 & -> & H1 & H2). rewrite <- app_assoc.
    apply IHa; [done | done |]. intros n'. by apply IHb.
  - apply andb_true_iff in Hf as [Hf1 Hf2]. destruct Hd as [H1 | H2].
    + destruct (IHa Hf1 k pre rest H1 Hk n) as [x ->]. done.
    + destruct (pmatch a n (pre ++ rest) k); [done |]. by apply IHb.
  - destruct Hd as (ws & -> & Hws).
    apply (many_complete _ (Address.denote a)); [| done | done | done].
    intros n0 pre0 rest0 k0 Hd0 Hk0. by apply IHa.
  - done.
  - destruct Hd as [-> ->]. apply Hk.
Qed.

Lemma search_anchored_later (r : pattern) (s : jsstring) : forall n,
  search (Then Address.Bol r) (S n) s = false.
Proof. induction s as [|c s IH]; intros n; cbn; [done | apply IH]. Qed.

Lemma test_start_anchored (r : pattern) (s : jsstring) :
  Address.test (Then Address.Bol r) s = true <->
  is_Some (pmatch r 0 s (fun _ _ => Some tt)).
Proof.
  unfold Address.test.
  assert (search (Then Address.Bol r) 0 s
          = match pmatch r 0 s (fun _ _ => Some tt) with
            | Some _ => true | None => false end) as ->.
  { destruct s as [|c s]; cbn [search pmatch Nat.eqb]; [done |].
    rewrite search_anchored_later. done. }
  destruct (pmatch _ _ _ _); split; try done; by intros [? ?].
Qed.

Lemma many_one_denotes (p : N -> bool) (pre rest : jsstring) :
  Address.denote (Many (One p)) pre rest <-> forallb p pre = true.
Proof.
  split.
  - intros (ws & -> & H). induction ws as [|w ws IH]; [done |].
    destruct H as (_ & (c & -> & Hc) & H). simpl. rewrite Hc. by apply IH.
  - intros H. exists (map (fun c => [c]) pre). split.
    + clear H. induction pre as [|c pre IH]; [done |]. simpl. by rewrite <- IH.
    + induction pre as [|c pre IH]; [done |]. simpl in H.
      apply andb_true_iff in H as [Hc H]. cbn [map denoteMany].
      split; [done |]. split; [by exists c | by apply IH].
Qed.

Lemma atMost_one_denotes (p : N -> bool) (rest : jsstring) :
  forall n (pre : jsstring),
    Address.denote (AtMost n (One p)) pre rest <->
    (length pre <= n)%nat /\ forallb p pre = true.
Proof.
  induction n as [|n IH]; intros pre; cbn [AtMost Address.denote].
  - split; [by intros -> |]. intros [H _]. destruct pre; [done | simpl in H; lia].
  - split.
    + intros [(p1 & p2 & -> & (c & -> & Hc) & H) | ->]; [| simpl; split; [lia | done]].
      apply IH in H as [Hl Hp]. simpl. rewrite Hc. split; [lia | done].
    + intros [Hl Hp]. destruct pre as [|c pre]; [by right |]. left.
      simpl in Hl, Hp. apply andb_true_iff in Hp as [Hc Hp].
      exists [c], pre. split; [done |]. split; [by exists c |].
      apply IH. split; [lia | done].
Qed.

Lemma alnum_ldh c : alnum c = true -> ldh c = true.
Proof. unfold ldh. by intros ->. Qed.

Lemma label_denotes (pre rest : jsstring) :
  Address.denote label pre rest <-> hostLabel pre = true.
Proof.
  unfold label, Maybe. split.
  - intros (p1 & p2 & -> & (c & -> & Hc) &
            [(q1 & q2 & -> & Hq & (z & -> & Hz)) | ->]).
    + apply atMost_one_denotes in Hq as [Hl Hq].
      change ([c] ++ q1 ++ [z]) with (c :: q1 ++ [z]). unfold hostLabel.
      change (c :: q1 ++ [z]) with ((c :: q1) ++ [z]) at 3.
      rewrite last_last, Hc, Hz. cbn [forallb].
      rewrite forallb_app, Hq, (alnum_ldh _ Hc). cbn [forallb].
      rewrite (alnum_ldh _ Hz). cbn [andb].
      rewrite !andb_true_r. apply Nat.leb_le.
      cbn [length]. rewrite length_app. cbn [length]. lia.
    + cbn. rewrite Hc, (alnum_ldh _ Hc). done.
  - unfold hostLabel. destruct pre as [|c t]; [done |].
    intros [[[Hl Hp]%andb_true_iff Hc]%andb_true_iff Hz]%andb_true_iff.
    apply Nat.leb_le in Hl. exists [c], t. split; [done |].
    split; [by exists c |].
    destruct t as [|c' t'] using rev_ind; [by right |]. left. clear IHt'.
    exists t', [c']. split; [done |].
    change (c :: t' ++ [c']) with ((c :: t') ++ [c']) in Hz, Hp, Hl.
    rewrite last_last in Hz. rewrite forallb_app in Hp.
    apply andb_true_iff in Hp as [Hp _]. simpl in Hp.
    apply andb_true_iff in Hp as [_ Hp].
    rewrite length_app in Hl. simpl in Hl.
    split; [| by exists c']. apply atMost_one_denotes. split; [lia | done].
Qed.

Lemma more_labels_denote (pre rest : jsstring) :
  Address.denote (Many (Then (One (charIs 46)) label)) pre rest <->
  exists more,
    pre = concat (map (cons 46%N) more) /\ forallb hostLabel more = true.
Proof.
  split.
  - intros (ws & -> & H). induction ws as [|w ws IH]; [by exists [] |].
    destruct H as (_ & (p1 & p2 & -> & (c & -> & Hc) & Hl) & H).
    apply label_denotes in Hl. apply N.eqb_eq in Hc as ->.
    destruct (IH H) as (more & E & Hm). exists (p2 :: more).
    simpl. rewrite E, Hl. done.
  - intros (more & -> & H). exists (map (cons 46%N) more). split; [done |].
    induction more as [|l more IH]; [done |]. simpl in H.
    apply andb_true_iff in H as [Hl H]. cbn [map denoteMany].
    split; [done |]. split; [| by apply IH].
    exists [46%N], l. split; [done |]. split; [by exists 46%N |].
    by apply label_denotes.
Qed.

Lemma address_shape (email : jsstring) :
  Address.validator email = true <->
  exists name first more,
    email = name ++ 64%N :: hostName first more
    /\ localPart name = true /\ hostLabel first = true
    /\ forallb hostLabel more = true.
Proof.
  unfold Address.validator, emailRegex. rewrite test_start_anchored. split.
  - intros [x H].
    apply pmatch_sound in H as (pre & rest & n' & -> & H & _).
    destruct H as (p1 & r1 & -> & (c & -> & Hc) &
                   p2 & r2 & -> & Hn &
                   p3 & r3 & -> & (a & -> & Ha) &
                   p4 & r4 & -> & Hl &
                   p5 & r5 & -> & Hm & -> & ->).
    apply many_one_denotes in Hn. apply label_denotes in Hl.
    apply more_labels_denote in Hm as (more & -> & Hm).
    apply N.eqb_eq in Ha as ->.
    exists (c :: p2), p4, more. unfold hostName, localPart.
    rewrite !app_nil_r. cbn [app length Nat.eqb negb forallb].
    by rewrite Hc, Hn.
  - intros (name & first & more & -> & Hn & Hf & Hm).
    pose proof (pmatch_complete
      (Then (One atext) (Then (Many (One atext)) (Then (One (charIs 64))
        (Then label (Then (Many (Then (One (charIs 46)) label)) Address.Eol)))))
      eq_refl (fun _ _ => Some tt)
      (name ++ 64%N :: hostName first more) []) as H.
    rewrite app_nil_r in H. apply H; [| by eauto]. clear H.
    unfold localPart in Hn. destruct name as [|c name]; [done |].
    simpl in Hn. apply andb_true_iff in Hn as [Hc Hn].
    exists [c], (name ++ 64%N :: hostName first more).
    split; [done |]. split; [by exists c |].
    exists name, (64%N :: hostName first more).
    split; [done |]. split; [by apply many_one_denotes |].
    exists [64%N], (hostName first more).
    split; [done |]. split; [by exists 64%N |].
    exists first, (concat (map (cons 46%N) more)).
    split; [done |]. split; [by apply label_denotes |].
    exists (concat (map (cons 46%N) more)), [].
    split; [by rewrite app_nil_r |]. split; [| done].
    apply more_labels_denote. by exists more.
Qed.

(** X19: the validator of the guarded schema accepts exactly a non-empty
    local part of the allowed characters, an at sign, and a host of one or
    more labels separated by dots, each label of 1 to 63 letters, digits and
    hyphens with no hyphen at either end.  A host of a single label, without
    any dot, is therefore accepted. *)
Theorem guarded_email_accepted_iff (email : jsstring) :
  (Address.validator email = true <->
   exists name first more,
     email = name ++ 64%N :: hostName first more
     /\ localPart name = true /\ hostLabel first = true
     /\ forallb hostLabel more = true)
  /\ (forall name host,
        email = name ++ 64%N :: host ->
        localPart name = true -> hostLabel host = true ->
        Address.validator email = true).
Proof.
  split; [apply address_shape |].
  intros name host -> Hn Hh. apply address_shape.
  exists name, host, []. unfold hostName. cbn [map concat].
  by rewrite app_nil_r.
Qed.

Lemma guarded_email_accepted_iff_witness :
  Address.validator (lit "ada@localhost") = true.
Proof.
  apply (proj2 (guarded_email_accepted_iff (lit "ada@localhost"))
           (lit "ada") (lit "localhost")); reflexivity.
Defined.

Lemma forallb_weaken {A} (p q : A -> bool) :
  (forall c, p c = true -> q c = true) ->
  forall s, forallb p s = true -> forallb q s = true.
Proof.
  intros Hpq. induction s as [|c s IH]; [done |]. simpl.
  intros [Hc Hs]%andb_true_iff. by rewrite (Hpq _ Hc), IH.
Qed.

Lemma atext_plain c : atext c = true -> Email.plain c = true.
Proof.
  unfold atext, alnum, Email.plain. cbn [lit list_ascii_of_string map existsb].
  intros H. apply negb_true_iff. destruct (isWhiteSpace c || charIs 64 c) eqn:E;
    [exfalso | done].
  cbn in H. class_solve.
Qed.

Lemma ldh_plain c : ldh c = true -> Email.plain c = true.
Proof.
  unfold ldh, alnum, Email.plain.
  intros H. apply negb_true_iff. destruct (isWhiteSpace c || charIs 64 c) eqn:E;
    [exfalso | done].
  class_solve.
Qed.

Lemma ldh_no_dot (s : jsstring) : forallb ldh s = true -> ~ In 46%N s.
Proof.
  induction s as [|c s IH]; [by intros _ [] |]. simpl.
  intros [Hc Hs]%andb_true_iff [-> | Hin]; [| by apply IH].
  vm_compute in Hc. discriminate Hc.
Qed.

Lemma plain_no_at (s : jsstring) : forallb Email.plain s = true -> ~ In 64%N s.
Proof.
  induction s as [|c s IH]; [by intros _ [] |]. simpl.
  intros [Hc Hs]%andb_true_iff [-> | Hin]; [| by apply IH].
  vm_compute in Hc. discriminate Hc.
Qed.

Lemma hostLabel_ldh (l : jsstring) :
  hostLabel l = true -> l <> [] /\ forallb ldh l = true.
Proof.
  unfold hostLabel. destruct l as [|c l]; [done |].
  intros [[[_ H]%andb_true_iff _]%andb_true_iff _]%andb_true_iff. done.
Qed.

Lemma split_at_first (x : N) (a b a' b' : jsstring) :
  ~ In x a -> ~ In x a' -> a ++ x :: b = a' ++ x :: b' -> a = a' /\ b = b'.
Proof.
  revert a'. induction a as [|c a IH]; intros [|c' a'] Ha Ha' E; simpl in *.
  - by injection E as ->.
  - injection E as <- _. tauto.
  - injection E as -> _. tauto.
  - injection E as -> E. destruct (IH a') as [-> ->]; tauto.
Qed.

Lemma labels_plain (ls : list jsstring) :
  forallb hostLabel ls = true ->
  forallb Email.plain (concat (map (cons 46%N) ls)) = true.
Proof.
  induction ls as [|l ls IH]; [done |]. simpl.
  intros [Hl Hls]%andb_true_iff. apply hostLabel_ldh in Hl as [_ Hl].
  by rewrite forallb_app, (forallb_weaken _ _ ldh_plain _ Hl), IH.
Qed.

(** X20: of the addresses the guarded validator accepts, the validator of
    booking.model.ts accepts exactly those whose host has a dot, that is
    more than one label. *)
Theorem plain_validator_wants_a_dot (name first : jsstring)
    (more : list jsstring) :
  localPart name = true -> hostLabel first = true ->
  forallb hostLabel more = true ->
  Address.validator (name ++ 64%N :: hostName first more) = true
  /\ (Email.validator (name ++ 64%N :: hostName first more) = true <->
      more <> []).
Proof.
  intros Hn Hf Hm. split; [apply address_shape; by exists name, first, more |].
  pose proof Hn as [Hn0 Hn1]%andb_true_iff.
  apply (forallb_weaken _ _ atext_plain) in Hn1.
  pose proof (hostLabel_ldh _ Hf) as [Hf0 Hf1].
  rewrite email_shape. split.
  - intros (name' & host & tld & E & [_ Hn']%andb_true_iff & _ & _) ->.
    unfold hostName in E. cbn [map concat] in E. rewrite app_nil_r in E.
    apply split_at_first in E as [_ E]; [| by apply plain_no_at ..].
    apply (ldh_no_dot _ Hf1). rewrite E. apply in_elt.
  - intros Hne. destruct more as [|l more'] using rev_ind; [done |].
    clear IHmore' Hne. rewrite forallb_app in Hm.
    apply andb_true_iff in Hm as [Hm Hl]. simpl in Hl.
    rewrite andb_true_r in Hl. apply hostLabel_ldh in Hl as [Hl0 Hl1].
    exists name, (first ++ concat (map (cons 46%N) more')), l.
    unfold hostName. rewrite map_app, concat_app. cbn [map concat].
    rewrite app_nil_r, <- !app_assoc. cbn [app]. split; [done |].
    unfold Email.word. split_and!.
    + by rewrite Hn0, Hn1.
    + rewrite forallb_app, (forallb_weaken _ _ ldh_plain _ Hf1),
        (labels_plain _ Hm).
      destruct first; [done |]. done.
    + rewrite (forallb_weaken _ _ ldh_plain _ Hl1). by destruct l.
Qed.

Lemma plain_validator_wants_a_dot_witness :
  Address.validator (lit "ada@mail.example.org") = true
  /\ (Email.validator (lit "ada@mail.example.org") = true <->
      [lit "example"; lit "org"] <> []).
Proof.
  apply (plain_validator_wants_a_dot (lit "ada") (lit "mail")
           [lit "example"; lit "org"]); reflexivity.
Defined.

(** The two email patterns on sample addresses. *)
Example email_samples :
  map Address.validator
    [lit "ada@example.org"; lit "ada@localhost"; lit "ada@a..b";
     lit "ada@-a.org"; lit "ada@a-.org"; lit "a da@example.org";
     lit "@example.org"; lit "ada@"; lit "a.d+a@x-y.org";
     lit "ada@" ++ repeat 97%N 63 ++ lit ".org";
     lit "ada@" ++ repeat 97%N 64 ++ lit ".org"]
  = [true; true; false; false; false; false; false; false; true; true; false]
  /\ map Email.validator
    [lit "ada@example.org"; lit "ada@localhost"; lit "ada@a..b";
     lit "ada@-a.org"; lit "a da@example.org"; lit "a@b@c.org"]
  = [true; false; true; true; false; false].
Proof. split; vm_compute; reflexivity. Qed.

End MoreAddress.
